(** * Playful Determinism: the tiled swirl of [sketch.js]

    A shallow embedding of the JavaScript classes [TiledSwirl] and [Utils] of
    [src/javascript/sketch.js], and the properties of the tile field that the
    specification states about them.

    Numbers.  The code is embedded twice.  In [JsNum], on which the whole
    class is embedded, a JavaScript number is a real number, one of the two
    infinities, or NaN.  Arithmetic on finite values is the exact arithmetic
    of [R], and the operations follow ECMAScript wherever an operand or a
    result is not finite: [x / 0] is an infinity or NaN, [Math.min] and
    [Math.max] return NaN as soon as one argument is NaN, [Math.sqrt] of a
    negative number is NaN, and so on.  Zero is unsigned: the model's zero is
    JavaScript's [+0].  This reading carries what does not hang on the
    rounding of doubles: the control flow, which fields a method writes, the
    colour table, signs, finiteness, and the order between values that the
    code computes alike.  In [Double], further down, the numeric part of the
    class is embedded on binary64 floats; what rounding decides (the number
    of rows a rounded quotient gives, the last digit of a render size) is
    stated and proved there.

    Arrays.  A JavaScript array is a list of optional values, [None] standing
    for [undefined] (a hole or a stored [undefined]).

    Control.  A loop [for (let i = 0; i < n; i++)] over a number [n] runs
    [ceil n] times for a finite positive [n], never for [n <= 0], [-Infinity]
    or NaN, and for ever for [+Infinity]; a computation ends in an [outcome]:
    it returns, throws, or diverges.

    Host.  The window, the theme query and the random source are inputs: a
    [Host] record gives the window as an event finds it and the sequence of
    words [crypto.getRandomValues] delivers; the functions that draw random
    words count how many they have consumed. *)

From Stdlib Require Import Reals Lra Lia ZArith String List Bool Arith.
From Stdlib Require Floats Uint63.
Import ListNotations.

Open Scope R_scope.

(** ** JavaScript numbers *)

Module JsNum.

Inductive num : Type :=
| Fin (r : R)
| PInf
| NInf
| NaN.

(** The sign of a real, as a three-way comparison with zero. *)
Definition Rsign (r : R) : comparison :=
  match total_order_T r 0 with
  | inleft (left _) => Lt
  | inleft (right _) => Eq
  | inright _ => Gt
  end.

Definition sign (a : num) : option comparison :=
  match a with
  | Fin r => Some (Rsign r)
  | PInf => Some Gt
  | NInf => Some Lt
  | NaN => None
  end.

Definition neg (a : num) : num :=
  match a with
  | Fin r => Fin (- r)
  | PInf => NInf
  | NInf => PInf
  | NaN => NaN
  end.

(** [a + b] *)
Definition add (a b : num) : num :=
  match a, b with
  | Fin x, Fin y => Fin (x + y)
  | NaN, _ | _, NaN => NaN
  | PInf, NInf | NInf, PInf => NaN
  | PInf, _ | _, PInf => PInf
  | NInf, _ | _, NInf => NInf
  end.

(** [a - b] *)
Definition sub (a b : num) : num := add a (neg b).

(** An infinity of the product of two signs; NaN when one factor is zero. *)
Definition inf_of_signs (sa sb : comparison) : num :=
  match sa, sb with
  | Eq, _ | _, Eq => NaN
  | Gt, Gt | Lt, Lt => PInf
  | Gt, Lt | Lt, Gt => NInf
  end.

(** [a * b] *)
Definition mul (a b : num) : num :=
  match a, b with
  | Fin x, Fin y => Fin (x * y)
  | _, _ =>
      match sign a, sign b with
      | Some sa, Some sb => inf_of_signs sa sb
      | _, _ => NaN
      end
  end.

(** [a / b].  A finite non-zero value over zero is an infinity of the sign of
    the dividend (the zero being [+0]); [0 / 0] is NaN. *)
Definition div (a b : num) : num :=
  match a, b with
  | NaN, _ | _, NaN => NaN
  | Fin x, Fin y =>
      match Rsign y with
      | Eq => match Rsign x with Gt => PInf | Lt => NInf | Eq => NaN end
      | _ => Fin (x / y)
      end
  | Fin _, _ => Fin 0
  | PInf, Fin y => match Rsign y with Lt => NInf | _ => PInf end
  | NInf, Fin y => match Rsign y with Lt => PInf | _ => NInf end
  | _, _ => NaN
  end.

(** [Math.min(a, b)] *)
Definition min (a b : num) : num :=
  match a, b with
  | NaN, _ | _, NaN => NaN
  | NInf, _ | _, NInf => NInf
  | PInf, c | c, PInf => c
  | Fin x, Fin y => Fin (Rmin x y)
  end.

(** [Math.max(a, b)] *)
Definition max (a b : num) : num :=
  match a, b with
  | NaN, _ | _, NaN => NaN
  | PInf, _ | _, PInf => PInf
  | NInf, c | c, NInf => c
  | Fin x, Fin y => Fin (Rmax x y)
  end.

(** [Math.ceil(a)] *)
Definition ceil (a : num) : num :=
  match a with
  | Fin r => Fin (IZR (Zceil r))
  | _ => a
  end.

(** [Math.floor(a)] *)
Definition floor (a : num) : num :=
  match a with
  | Fin r => Fin (IZR (Zfloor r))
  | _ => a
  end.

(** [Math.sqrt(a)] *)
Definition sqrt (a : num) : num :=
  match a with
  | Fin r => match Rsign r with Lt => NaN | _ => Fin (R_sqrt.sqrt r) end
  | PInf => PInf
  | _ => NaN
  end.

(** [Math.pow(a, 2)] and [a ** 2] *)
Definition pow2 (a : num) : num :=
  match a with
  | Fin r => Fin (r ^ 2)
  | NaN => NaN
  | _ => PInf
  end.

(** [Math.sin(a)] *)
Definition sin (a : num) : num :=
  match a with
  | Fin r => Fin (Rtrigo_def.sin r)
  | _ => NaN
  end.

(** The angle of the point [(x, y)], in (-PI, PI]; [Ratan2 0 0 = 0]. *)
Definition Ratan2 (y x : R) : R :=
  match Rsign x with
  | Gt => atan (y / x)
  | Lt => match Rsign y with
          | Lt => atan (y / x) - PI
          | _ => atan (y / x) + PI
          end
  | Eq => match Rsign y with
          | Gt => PI / 2
          | Lt => - (PI / 2)
          | Eq => 0
          end
  end.

(** [Math.atan2(y, x)] *)
Definition atan2 (y x : num) : num :=
  match y, x with
  | NaN, _ | _, NaN => NaN
  | Fin b, Fin a => Fin (Ratan2 b a)
  | Fin b, PInf => Fin 0
  | Fin b, NInf => match Rsign b with Lt => Fin (- PI) | _ => Fin PI end
  | PInf, Fin _ => Fin (PI / 2)
  | NInf, Fin _ => Fin (- (PI / 2))
  | PInf, PInf => Fin (PI / 4)
  | PInf, NInf => Fin (3 * PI / 4)
  | NInf, PInf => Fin (- (PI / 4))
  | NInf, NInf => Fin (- (3 * PI / 4))
  end.

(** The number of a loop counter or of an array length. *)
Definition of_nat (n : nat) : num := Fin (INR n).

(** The number of iterations of [for (let i = 0; i < n; i++)]; [None] when the
    loop never ends. *)
Definition loop_count (n : num) : option nat :=
  match n with
  | Fin r => Some (Z.to_nat (Zceil r))
  | PInf => None
  | _ => Some O
  end.

(** The array index a number denotes as a property key, if it denotes one. *)
Definition index_of (a : num) : option nat :=
  match a with
  | Fin r =>
      if Req_dec_T (IZR (Zfloor r)) r
      then if Rle_dec 0 r then Some (Z.to_nat (Zfloor r)) else None
      else None
  | _ => None
  end.

End JsNum.

Import JsNum.

Declare Scope js_scope.
Delimit Scope js_scope with js.
Bind Scope js_scope with num.
Infix "+" := add : js_scope.
Infix "-" := sub : js_scope.
Infix "*" := mul : js_scope.
Infix "/" := div : js_scope.


(** ** Outcomes of a computation *)

Inductive error : Type :=
| TypeError.

Inductive outcome (A : Type) : Type :=
| Done (a : A)
| Throws (e : error)
| Diverges.

Arguments Done {A} a.
Arguments Throws {A} e.
Arguments Diverges {A}.

Definition bind {A B : Type} (m : outcome A) (k : A -> outcome B)
    : outcome B :=
  match m with
  | Done a => k a
  | Throws e => Throws e
  | Diverges => Diverges
  end.

Notation "x <- m ;; k" := (bind m (fun x => k))
  (at level 61, m at next level, right associativity).

(** [for (let i = start; i < start + count; i++) s = body(i, s)] *)
Fixpoint for_loop {S : Type} (body : nat -> S -> outcome S)
    (start count : nat) (s : S) : outcome S :=
  match count with
  | O => Done s
  | Datatypes.S c =>
      s' <- body start s ;; for_loop body (Datatypes.S start) c s'
  end.

(** The same loop over the count of [loop_count]: without a count the loop does
    not end.  It is used for bodies that never throw. *)
Definition for_count {S : Type} (body : nat -> S -> outcome S)
    (count : option nat) (s : S) : outcome S :=
  match count with
  | Some n => for_loop body O n s
  | None => Diverges
  end.

(** ** JavaScript arrays *)

Definition array (A : Type) : Type := list (option A).

(** [a[i]], [None] being [undefined] *)
Definition arr_get {A : Type} (a : array A) (i : nat) : option A :=
  match nth_error a i with
  | Some v => v
  | None => None
  end.

Fixpoint replace_nth {A : Type} (l : list A) (i : nat) (v : A) : list A :=
  match l, i with
  | [], _ => []
  | _ :: t, O => v :: t
  | h :: t, Datatypes.S k => h :: replace_nth t k v
  end.

(** [a[i] = v]: an index past the end extends the array, leaving holes. *)
Definition arr_set {A : Type} (a : array A) (i : nat) (v : option A)
    : array A :=
  if (i <? length a)%nat then replace_nth a i v
  else a ++ repeat None (i - length a) ++ [v].

(** [a[k]] for a number [k] *)
Definition arr_get_num {A : Type} (a : array A) (k : num) : option A :=
  match index_of k with
  | Some i => arr_get a i
  | None => None
  end.

(** ** The host: window, theme query and random source *)

Record Host : Type := {
  innerWidth : num;          (* window.innerWidth *)
  innerHeight : num;         (* window.innerHeight *)
  devicePixelRatio : num;    (* window.devicePixelRatio *)
  themeMatches : bool;       (* themeQuery.matches *)
  entropy : nat -> Z         (* the k-th word crypto.getRandomValues delivers *)
}.

(** ** The canvas element

    [width] and [height] of an [HTMLCanvasElement] are [unsigned long]
    attributes: an assigned number is truncated to an integer modulo 2^32, and
    a value above 2^31 - 1 is replaced by the attribute's default (300 for the
    width, 150 for the height).  The style strings and the transform of the
    drawing context, which nothing in the class reads back, are left out. *)

Module Canvas.

Record t : Type := { width : Z; height : Z }.

Definition Rtrunc (r : R) : Z := if Rle_dec 0 r then Zfloor r else Zceil r.

Definition to_uint32 (a : num) : Z :=
  match a with
  | Fin r => (Rtrunc r mod 2 ^ 32)%Z
  | _ => 0%Z
  end.

Definition reflect_ulong (default : Z) (a : num) : Z :=
  let n := to_uint32 a in
  if (n <=? 2147483647)%Z then n else default.

Definition set_width (c : t) (a : num) : t :=
  {| width := reflect_ulong 300 a; height := height c |}.

Definition set_height (c : t) (a : num) : t :=
  {| width := width c; height := reflect_ulong 150 a |}.

(** The attributes read as numbers. *)
Definition width_num (c : t) : num := Fin (IZR (width c)).
Definition height_num (c : t) : num := Fin (IZR (height c)).

End Canvas.

(** ** class Utils *)

Module Utils.

(** [crypto.getRandomValues(new Uint32Array(1))[0] / 2 ** 32], for the word
    [raw] the random source delivers: the array element keeps its 32 bits. *)
Definition random (raw : Z) : num :=
  (Fin (IZR (raw mod 2 ^ 32)) / Fin (2 ^ 32))%js.

(** The reassigned [x] of [smoothStep]:
    [Math.max(0, Math.min(1, (x - edge1) / (edge2 - edge1)))] *)
Definition smoothStep_x (x edge1 edge2 : num) : num :=
  max (Fin 0) (min (Fin 1) ((x - edge1) / (edge2 - edge1)))%js.

(** [x * x * (3 - 2 * x)] on the reassigned [x] *)
Definition smoothStep (x edge1 edge2 : num) : num :=
  let x := smoothStep_x x edge1 edge2 in
  (x * x * (Fin 3 - Fin 2 * x))%js.

End Utils.

(** ** class TiledSwirl *)

Module TiledSwirl.

(** The instance fields.  [colors] is an array of columns; [ctx] tells whether
    [getContext("2d")] delivered a context. *)
Record t : Type := {
  density : num;
  edge : num;
  ripple : num;
  speed : num;
  tightness : num;
  palette : list string;
  rows : num;
  cols : num;
  size : num;
  time : num;
  distanceMax : num;
  isDark : bool;
  colors : array (array string);
  canvas : option Canvas.t;
  ctx : bool
}.

(** One [fillStyle] assignment followed by one [fillRect] call. *)
Record Rect : Type := {
  fillStyle : string;
  rectX : num;
  rectY : num;
  rectW : num;
  rectH : num
}.

(** The object once the field initialisers and the two assignments that open
    the constructor have run. *)
Definition fields (c : Canvas.t) (hasCtx : bool) : t :=
  {| density := Fin 32;
     edge := Fin 0.1;
     ripple := Fin 5;
     speed := Fin 0.03;
     tightness := Fin 3;
     palette := [EmptyString; "hsl(343, 90%, 50%)"; "hsl(43, 90%, 50%)";
                 "hsl(223, 90%, 50%)"]%string;
     rows := Fin 0;
     cols := Fin 0;
     size := Fin 0;
     time := Fin 0;
     distanceMax := Fin 0;
     isDark := false;
     colors := [];
     canvas := Some c;
     ctx := hasCtx |}.

(** [get blankColor()] *)
Definition blankColor (s : t) : string :=
  if isDark s then "hsl(0, 0%, 100%)"%string else "hsl(0, 0%, 0%)"%string.

(** [canvasResize()] *)
Definition canvasResize (h : Host) (s : t) : t :=
  match canvas s with
  | None => s
  | Some c =>
      let ratio := devicePixelRatio h in
      let c := Canvas.set_width c (innerWidth h * ratio) in
      let c := Canvas.set_height c (innerHeight h * ratio) in
      let width := Canvas.width_num c in
      let height := Canvas.height_num c in
      let size := ((min width height / density s) / ratio)%js in
      let rows := ceil ((height / size) / ratio) in
      let cols := ceil ((width / size) / ratio) in
      let halfWidth := ((width / Fin 2) / ratio)%js in
      let halfHeight := ((height / Fin 2) / ratio)%js in
      {| density := density s;
         edge := edge s;
         ripple := ripple s;
         speed := speed s;
         tightness := tightness s;
         palette := palette s;
         rows := rows;
         cols := cols;
         size := size;
         time := time s;
         distanceMax := sqrt (pow2 halfWidth + pow2 halfHeight);
         isDark := isDark s;
         colors := colors s;
         canvas := Some c;
         ctx := ctx s |}
  end.

(** [checkDarkTheme()] *)
Definition checkDarkTheme (h : Host) (s : t) : t :=
  {| density := density s; edge := edge s; ripple := ripple s;
     speed := speed s; tightness := tightness s; palette := palette s;
     rows := rows s; cols := cols s; size := size s; time := time s;
     distanceMax := distanceMax s;
     isDark := themeMatches h;
     colors := colors s; canvas := canvas s; ctx := ctx s |}.

Definition set_colors (s : t) (cs : array (array string)) : t :=
  {| density := density s; edge := edge s; ripple := ripple s;
     speed := speed s; tightness := tightness s; palette := palette s;
     rows := rows s; cols := cols s; size := size s; time := time s;
     distanceMax := distanceMax s; isDark := isDark s;
     colors := cs;
     canvas := canvas s; ctx := ctx s |}.

Definition set_time (s : t) (v : num) : t :=
  {| density := density s; edge := edge s; ripple := ripple s;
     speed := speed s; tightness := tightness s; palette := palette s;
     rows := rows s; cols := cols s; size := size s;
     time := v;
     distanceMax := distanceMax s; isDark := isDark s;
     colors := colors s; canvas := canvas s; ctx := ctx s |}.

(** [this.palette[index]] *)
Definition palette_at (p : list string) (index : num) : option string :=
  match index_of index with
  | Some i => nth_error p i
  | None => None
  end.

(** [Math.floor(Utils.random() * this.palette.length)] for the word [raw] *)
Definition palette_index (p : list string) (raw : Z) : num :=
  floor (Utils.random raw * of_nat (length p)).

(** The body of the inner loop of [colorsInit], on the array under
    construction and the number of random words consumed. *)
Definition colorsInit_cell (h : Host) (s : t) (i j : nat)
    (st : array (array string) * nat) : outcome (array (array string) * nat) :=
  let '(cs, k) := st in
  let index := palette_index (palette s) (entropy h k) in
  match arr_get cs i with
  | None => Throws TypeError
  | Some col =>
      Done (arr_set cs i (Some (arr_set col j (palette_at (palette s) index))),
            Datatypes.S k)
  end.

(** The body of the outer loop of [colorsInit]. *)
Definition colorsInit_column (h : Host) (s : t) (i : nat)
    (st : array (array string) * nat) : outcome (array (array string) * nat) :=
  let '(cs, k) := st in
  for_count (colorsInit_cell h s i) (loop_count (rows s))
    (arr_set cs i (Some []), k).

(** [colorsInit()], from [k] random words consumed so far. *)
Definition colorsInit (h : Host) (k : nat) (s : t) : outcome (t * nat) :=
  st <- for_count (colorsInit_column h s) (loop_count (cols s)) ([], k) ;;
  Done (set_colors s (fst st), snd st).

(** *** The tile field of [draw] *)

Section Tile.

Variable h : Host.
Variable s : t.
Variable c : Canvas.t.

Definition ratio : num := devicePixelRatio h.
Definition centerX : num := ((Canvas.width_num c / ratio) / Fin 2)%js.
Definition centerY : num := ((Canvas.height_num c / ratio) / Fin 2)%js.

Definition tileLeft (i : nat) : num := (of_nat i * size s)%js.
Definition tileTop (j : nat) : num := (of_nat j * size s)%js.

Definition angleX (i : nat) : num :=
  (tileLeft i + size s / Fin 2 - centerX)%js.
Definition angleY (j : nat) : num :=
  (tileTop j + size s / Fin 2 - centerY)%js.

Definition dist (i j : nat) : num :=
  let legHorizontal := pow2 (tileLeft i + size s / Fin 2 - centerX) in
  let legVertical := pow2 (tileTop j + size s / Fin 2 - centerY) in
  sqrt (legHorizontal + legVertical).

Definition distNormalized (i j : nat) : num := (dist i j / distanceMax s)%js.

Definition angle (i j : nat) : num := atan2 (angleY j) (angleX i).

(** [Math.sin(distNormalized * rippleFactor + angle - this.time)] as a
    function of the normalised distance and the angle *)
Definition wave_of (distNormalized angle : num) : num :=
  let rippleFactor :=
    (tightness s * (Fin 1 + distNormalized * ripple s))%js in
  sin (distNormalized * rippleFactor + angle - time s).

Definition waveNormalized_of (wave : num) : num := ((wave + Fin 1) / Fin 2)%js.

Definition edge1 : num := (Fin 0.5 - edge s)%js.
Definition edge2 : num := (Fin 0.5 + edge s)%js.

(** [tileSize] as a function of the wave value *)
Definition tileSize_of (wave : num) : num :=
  let waveEdged := Utils.smoothStep (waveNormalized_of wave) edge1 edge2 in
  (size s * Fin 0.2 + (size s * Fin 0.8 * waveEdged))%js.

Definition wave (i j : nat) : num := wave_of (distNormalized i j) (angle i j).

Definition tileSize (i j : nat) : num := tileSize_of (wave i j).

(** [this.colors[i][j] || this.blankColor] once [this.colors[i]] is known to
    be the array [col] *)
Definition tileColor (col : array string) (j : nat) : string :=
  match arr_get col j with
  | None => blankColor s
  | Some EmptyString => blankColor s
  | Some color => color
  end.

Definition tile (col : array string) (i j : nat) : Rect :=
  let tileX := (tileLeft i + (size s - tileSize i j) / Fin 2)%js in
  let tileY := (tileTop j + (size s - tileSize i j) / Fin 2)%js in
  {| fillStyle := tileColor col j;
     rectX := tileX; rectY := tileY;
     rectW := tileSize i j; rectH := tileSize i j |}.

(** The inner loop of [draw] at column [i], over [count] rows.  Reading
    [this.colors[i][j]] throws when [this.colors[i]] is undefined; a loop
    without a count runs for ever on a column that exists. *)
Definition draw_column (count : option nat) (i : nat) : outcome (list Rect) :=
  match arr_get (colors s) i, count with
  | None, Some O => Done []
  | None, _ => Throws TypeError
  | Some col, Some n => Done (map (tile col i) (seq 0 n))
  | Some col, None => Diverges
  end.

Fixpoint draw_columns (count : option nat) (start n : nat)
    : outcome (list Rect) :=
  match n with
  | O => Done []
  | Datatypes.S m =>
      r <- draw_column count start ;;
      rs <- draw_columns count (Datatypes.S start) m ;;
      Done (r ++ rs)
  end.

End Tile.

(** [draw()]: the rectangles filled, in order.  When [cols] is [+Infinity]
    the outer loop ends only by the throw at the first column [colors] lacks. *)
Definition draw (h : Host) (s : t) : outcome (list Rect) :=
  match canvas s with
  | None => Done []
  | Some c =>
      if ctx s then
        match loop_count (cols s) with
        | Some n => draw_columns h s c (loop_count (rows s)) 0 n
        | None =>
            _ <- draw_columns h s c (loop_count (rows s)) 0
                   (Datatypes.S (length (colors s))) ;;
            Diverges
        end
      else Done []
  end.

(** [animate()]: one frame.  The time is advanced before [draw] runs, so it
    stays advanced when [draw] throws. *)
Definition animate (h : Host) (s : t) : t * outcome (list Rect) :=
  match canvas s with
  | None => (s, Done [])
  | Some _ =>
      if ctx s then
        let s' := set_time s (time s + speed s) in
        (s', draw h s')
      else (s, Done [])
  end.

(** The rest of the constructor, from the object [s] the field initialisers
    made and [k] random words consumed: [canvasResize], [checkDarkTheme],
    [colorsInit] and the first frame. *)
Definition constructor (h : Host) (k : nat) (s : t)
    : outcome (t * nat * list Rect) :=
  let s := canvasResize h s in
  let s := checkDarkTheme h s in
  st <- colorsInit h k s ;;
  let '(s', frame) := animate h (fst st) in
  rects <- frame ;;
  Done (s', snd st, rects).

End TiledSwirl.


(** * Predicates and real-valued readings *)

Import TiledSwirl.

Definition finite (a : num) : Prop :=
  match a with
  | Fin _ => True
  | _ => False
  end.

(** The real a finite number stands for. *)
Definition real (a : num) : R :=
  match a with
  | Fin r => r
  | _ => 0
  end.

(** [a < b], the guard of the loops. *)
Definition less (a b : num) : Prop :=
  match a, b with
  | Fin x, Fin y => x < y
  | Fin _, PInf | NInf, Fin _ | NInf, PInf => True
  | _, _ => False
  end.

(** The clamp and the cubic of [smoothStep], on reals. *)
Definition Rclamp01 (q : R) : R := Rmax 0 (Rmin 1 q).
Definition Rsmooth (x : R) : R := x * x * (3 - 2 * x).

(** The geometry [draw] reads is finite and not degenerate: what
    [canvasResize] establishes on a canvas of positive width and height, for a
    positive density and pixel ratio (see [canvasResize_geometry]). *)
Record Geometry (h : Host) (s : t) : Prop := {
  geo_ratio : finite (devicePixelRatio h);
  geo_ratio_pos : 0 < real (devicePixelRatio h);
  geo_size : finite (size s);
  geo_size_pos : 0 < real (size s);
  geo_distanceMax : finite (distanceMax s);
  geo_distanceMax_pos : 0 < real (distanceMax s)
}.

(** The tuning fields the wave reads are finite. *)
Record Tuning (s : t) : Prop := {
  tun_edge : finite (edge s);
  tun_tightness : finite (tightness s);
  tun_ripple : finite (ripple s);
  tun_time : finite (time s)
}.

(** The grid coordinates the loops of [draw] visit. *)
Definition in_grid (s : t) (i j : nat) : Prop :=
  less (of_nat i) (cols s) /\ less (of_nat j) (rows s).

(** The real-valued reading of the tile field. *)
Section RealField.

Variable h : Host.
Variable s : t.
Variable c : Canvas.t.

Definition RcenterX : R :=
  IZR (Canvas.width c) / real (devicePixelRatio h) / 2.
Definition RcenterY : R :=
  IZR (Canvas.height c) / real (devicePixelRatio h) / 2.

Definition RangleX (i : nat) : R :=
  INR i * real (size s) + real (size s) / 2 - RcenterX.
Definition RangleY (j : nat) : R :=
  INR j * real (size s) + real (size s) / 2 - RcenterY.

Definition Rdist (i j : nat) : R :=
  R_sqrt.sqrt (RangleX i ^ 2 + RangleY j ^ 2).

Definition RdistNormalized (i j : nat) : R :=
  Rdist i j / real (distanceMax s).

Definition Rangle (i j : nat) : R := Ratan2 (RangleY j) (RangleX i).

Definition Rphase (dn a : R) : R :=
  dn * (real (tightness s) * (1 + dn * real (ripple s))) + a - real (time s).

Definition Rwave (i j : nat) : R :=
  Rtrigo_def.sin (Rphase (RdistNormalized i j) (Rangle i j)).

(** The reassigned [x] of [smoothStep] for a wave value [w]. *)
Definition Rsharp_x (w : R) : R :=
  Rclamp01 (((w + 1) / 2 - (0.5 - real (edge s)))
            / ((0.5 + real (edge s)) - (0.5 - real (edge s)))).

Definition RtileSize_of (w : R) : R :=
  real (size s) * 0.2 + real (size s) * 0.8 * Rsmooth (Rsharp_x w).

End RealField.

(** The geometry as the specification words it ([computeGeometry], over the
    reals), to be compared with what [canvasResize] and [draw] compute. *)
Module Spec.

Record Grid : Type := {
  tileEdge : R;
  gridRows : Z;
  gridCols : Z;
  gridCenterX : R;
  gridCenterY : R;
  maxDistance : R
}.

Definition computeGeometry
    (viewportWidth viewportHeight pixelRatio density : R) : Grid :=
  let tileEdge := Rmin viewportWidth viewportHeight / density / pixelRatio in
  {| tileEdge := tileEdge;
     gridRows := Zceil (viewportHeight / tileEdge / pixelRatio);
     gridCols := Zceil (viewportWidth / tileEdge / pixelRatio);
     gridCenterX := viewportWidth / pixelRatio / 2;
     gridCenterY := viewportHeight / pixelRatio / 2;
     maxDistance :=
       R_sqrt.sqrt ((viewportWidth / pixelRatio / 2) ^ 2
                    + (viewportHeight / pixelRatio / 2) ^ 2) |}.

End Spec.

(** The canvas [canvasResize] leaves behind. *)
Definition resized_canvas (h : Host) (c0 : Canvas.t) : Canvas.t :=
  Canvas.set_height
    (Canvas.set_width c0 (innerWidth h * devicePixelRatio h))
    (innerHeight h * devicePixelRatio h).


(** ** A concrete session: an 800 x 600 window at pixel ratio 1 *)

(** A canvas element as the page delivers it, with the default size. *)
Definition page_canvas : Canvas.t :=
  {| Canvas.width := 300; Canvas.height := 150 |}.

Definition window_800x600 : Host :=
  {| innerWidth := Fin 800;
     innerHeight := Fin 600;
     devicePixelRatio := Fin 1;
     themeMatches := false;
     entropy := fun _ => 0%Z |}.

(** The default object after its first [canvasResize]. *)
Definition swirl_800x600 : t :=
  canvasResize window_800x600 (fields page_canvas true).

Definition canvas_800x600 : Canvas.t :=
  {| Canvas.width := 800; Canvas.height := 600 |}.

(** ** The colour table [colorsInit] builds *)

(** The entry the [k]-th random word selects. *)
Definition cell_value (h : Host) (p : list string) (k : nat)
    : option string :=
  palette_at p (palette_index p (entropy h k)).

(** A column of [nr] entries, drawn from the random words [k], [k + 1], ... *)
Definition column_values (h : Host) (p : list string) (k nr : nat)
    : array string :=
  map (fun j => cell_value h p (k + j)) (seq 0 nr).

(** [nc] columns of [nr] entries, drawn column after column. *)
Definition table_values (h : Host) (p : list string) (k nc nr : nat)
    : array (array string) :=
  map (fun i => Some (column_values h p (k + i * nr) nr)) (seq 0 nc).

(** [this.colors[i][j]] where it does not throw. *)
Definition color_at (cs : array (array string)) (i j : nat) : option string :=
  match arr_get cs i with
  | Some col => arr_get col j
  | None => None
  end.

(** ** Assignments to the public tuning fields *)

(** [this.density = v] *)
Definition with_density (s : t) (v : num) : t :=
  {| density := v;
     edge := edge s; ripple := ripple s; speed := speed s;
     tightness := tightness s; palette := palette s;
     rows := rows s; cols := cols s; size := size s; time := time s;
     distanceMax := distanceMax s; isDark := isDark s;
     colors := colors s; canvas := canvas s; ctx := ctx s |}.

(** [this.edge = v] *)
Definition with_edge (s : t) (v : num) : t :=
  {| density := density s;
     edge := v;
     ripple := ripple s; speed := speed s;
     tightness := tightness s; palette := palette s;
     rows := rows s; cols := cols s; size := size s; time := time s;
     distanceMax := distanceMax s; isDark := isDark s;
     colors := colors s; canvas := canvas s; ctx := ctx s |}.

(** [this.speed = v] *)
Definition with_speed (s : t) (v : num) : t :=
  {| density := density s; edge := edge s; ripple := ripple s;
     speed := v;
     tightness := tightness s; palette := palette s;
     rows := rows s; cols := cols s; size := size s; time := time s;
     distanceMax := distanceMax s; isDark := isDark s;
     colors := colors s; canvas := canvas s; ctx := ctx s |}.

(** What the constructor keeps of the resized object [s1] in the object
    [s'] it returns: everything but the colour table, the theme flag and the
    time, which is the same or one frame later. *)
Record Kept (s1 s' : t) : Prop := {
  kept_canvas : canvas s' = canvas s1;
  kept_size : size s' = size s1;
  kept_rows : rows s' = rows s1;
  kept_cols : cols s' = cols s1;
  kept_distanceMax : distanceMax s' = distanceMax s1;
  kept_edge : edge s' = edge s1;
  kept_tightness : tightness s' = tightness s1;
  kept_ripple : ripple s' = ripple s1;
  kept_palette : palette s' = palette s1;
  kept_ctx : ctx s' = ctx s1;
  kept_density : density s' = density s1;
  kept_time : time s' = time s1 \/ time s' = (time s1 + speed s1)%js
}.

(** ** Resize events *)

(** The resize events of a session, each finding the window as the host then
    has it. *)
Definition resizes (hs : list Host) (s : t) : t :=
  fold_left (fun s h => canvasResize h s) hs s.

(** A 100 x 100 window at pixel ratio 1 whose random source delivers the word
    [0] a hundred times and the word [2^31] from then on. *)
Definition window_100x100 : Host :=
  {| innerWidth := Fin 100;
     innerHeight := Fin 100;
     devicePixelRatio := Fin 1;
     themeMatches := false;
     entropy := fun k => if (k <? 100)%nat then 0%Z else (2 ^ 31)%Z |}.

Definition canvas_100x100 : Canvas.t :=
  {| Canvas.width := 100; Canvas.height := 100 |}.

(** The default object built on the 100 x 100 window with density 1, a single
    tile, and its density then set back to the default 32. *)
Definition single_tile : t :=
  with_density
    (canvasResize window_100x100
       (with_density (fields page_canvas true) (Fin 1)))
    (Fin 32).

(** A 150 x 100 window at pixel ratio 1. *)
Definition window_150x100 : Host :=
  {| innerWidth := Fin 150;
     innerHeight := Fin 100;
     devicePixelRatio := Fin 1;
     themeMatches := false;
     entropy := fun _ => 0%Z |}.

Definition canvas_150x100 : Canvas.t :=
  {| Canvas.width := 150; Canvas.height := 100 |}.

(** * Further code of [sketch.js] *)

(** ** The animation loop *)

(** [n] frames: [requestAnimationFrame] calls [animate] again and again, and
    a frame whose [draw] throws leaves the loop running, since the next call
    was scheduled first.  What the frames fill is left out here. *)
Fixpoint frames (h : Host) (n : nat) (s : t) : t :=
  match n with
  | O => s
  | Datatypes.S m => frames h m (fst (animate h s))
  end.

(** ** Further sessions *)

(** An 800 x 600 window whose content area has no height, and one that has
    no width. *)
Definition window_800x0 : Host :=
  {| innerWidth := Fin 800;
     innerHeight := Fin 0;
     devicePixelRatio := Fin 1;
     themeMatches := false;
     entropy := fun _ => 0%Z |}.

Definition window_0x600 : Host :=
  {| innerWidth := Fin 0;
     innerHeight := Fin 600;
     devicePixelRatio := Fin 1;
     themeMatches := false;
     entropy := fun _ => 0%Z |}.

Definition canvas_800x0 : Canvas.t :=
  {| Canvas.width := 800; Canvas.height := 0 |}.

Definition canvas_0x600 : Canvas.t :=
  {| Canvas.width := 0; Canvas.height := 600 |}.

(** The single tile of [single_tile] with a colour in the table. *)
Definition single_tile_colored : t :=
  set_colors single_tile [Some [Some "hsl(43, 90%, 50%)"%string]].

(** The real cubic and clamp of [smoothStep] applied to a quotient. *)
Definition Rstep (x e1 e2 : R) : R := Rsmooth (Rclamp01 ((x - e1) / (e2 - e1))).

(** ** Comparing two runs of [draw] *)

(** Two outcomes of the same kind, with related results. *)
Definition outcome_rel {A : Type} (R : A -> A -> Prop) (o o' : outcome A)
    : Prop :=
  match o, o' with
  | Done a, Done a' => R a a'
  | Throws e, Throws e' => e = e'
  | Diverges, Diverges => True
  | _, _ => False
  end.

(** [r'] is the rectangle [r] of the object [s] as the object [s'] fills it
    when it differs from [s] in the theme only: the same place and size, and
    the same fill style unless it is the blank colour. *)
Definition rethemed (s s' : t) (r r' : Rect) : Prop :=
  rectX r' = rectX r /\ rectY r' = rectY r
  /\ rectW r' = rectW r /\ rectH r' = rectH r
  /\ (fillStyle r' = fillStyle r
      \/ (fillStyle r = blankColor s /\ fillStyle r' = blankColor s')).

(** ** Comparing numbers *)

(** [a <= b] *)
Definition at_most (a b : num) : Prop :=
  match a, b with
  | Fin x, Fin y => x <= y
  | NInf, Fin _ | NInf, PInf | NInf, NInf | Fin _, PInf | PInf, PInf => True
  | _, _ => False
  end.

(** The object of density 1 after its first [canvasResize] on the 100 x 100
    window: one tile, whose centre is the centre of the field. *)
Definition lone_tile : t :=
  canvasResize window_100x100
    (with_density (fields page_canvas true) (Fin 1)).

(** * The arithmetic of [sketch.js] in binary64

    The numbers of the class are IEEE 754 doubles.  The module [Double]
    embeds the numeric part of the class a second time, on Rocq's primitive
    binary64 floats: [+], [-], [*], [/] and [Math.sqrt] are the correctly
    rounded operations of IEEE 754, as ECMAScript prescribes, and a decimal
    literal of the source stands for the nearest double.  What the claims say
    about values that rounding decides (how many rows a quotient gives, the
    last digit of a size) is settled here; [JsNum] above is the same code
    read over exact reals.

    [Math.sin] and [Math.atan2] are implementation-approximated in
    ECMAScript: their results are inputs of the functions below ([phase]
    takes the angle, [tileSize_of] the wave).  ECMAScript fixes
    [Math.atan2(+0, +0) = +0] and [Math.sin(+0) = +0]. *)

Module Double.

Import PrimFloat FloatOps SpecFloat.
#[local] Set Warnings "-inexact-float".
Local Open Scope float_scope.

(** ** Numbers *)

(** [Number.isNaN(a)] *)
Definition isNaN (a : float) : bool := negb (a =? a).

(** [Object.is(a, -0)] *)
Definition isNegZero (a : float) : bool := (a =? 0) && (1 / a <? 0).

(** [Math.min(a, b)]: NaN as soon as one argument is NaN, and [-0] below
    [+0]. *)
Definition min (a b : float) : float :=
  if isNaN a || isNaN b then nan
  else if a <? b then a
  else if b <? a then b
  else if isNegZero a then a else b.

(** [Math.max(a, b)] *)
Definition max (a b : float) : float :=
  if isNaN a || isNaN b then nan
  else if a <? b then b
  else if b <? a then a
  else if isNegZero a then b else a.

(** The double of an integer between 0 and 2^53. *)
Definition of_Z (z : Z) : float := of_uint63 (Uint63.of_Z z).

(** The loop counter [i] as a number. *)
Definition of_nat (n : nat) : float := of_Z (Z.of_nat n).

(** [Math.ceil(a)]: a double [m * 2^e] with [e < 0] has the integer part
    [m / 2^-e]; a negative number rounds towards zero, down to [-0]. *)
Definition ceil (a : float) : float :=
  match Prim2SF a with
  | S754_finite s m e =>
      if (0 <=? e)%Z then a
      else
        let d := (2 ^ (- e))%Z in
        let q := (Zpos m / d)%Z in
        if s then - of_Z q
        else if (Zpos m mod d =? 0)%Z then of_Z q else of_Z (q + 1)
  | _ => a
  end.

(** [Math.sqrt(a)] *)
Definition sqrt (a : float) : float := PrimFloat.sqrt a.

(** [Math.pow(a, 2)] and [a ** 2]: the square [a * a], which is what the
    [pow] of fdlibm and its descendants returns for the exponent 2. *)
Definition pow2 (a : float) : float := a * a.

(** ** The host and the canvas element *)

Record Host : Type := {
  innerWidth : float;          (* window.innerWidth *)
  innerHeight : float;         (* window.innerHeight *)
  devicePixelRatio : float     (* window.devicePixelRatio *)
}.

(** An assigned number is truncated to an integer modulo 2^32. *)
Definition to_uint32 (a : float) : Z :=
  match Prim2SF a with
  | S754_finite s m e =>
      let n := if (0 <=? e)%Z then (Zpos m * 2 ^ e)%Z
               else (Zpos m / 2 ^ (- e))%Z in
      ((if s then - n else n) mod 2 ^ 32)%Z
  | _ => 0%Z
  end.

Definition reflect_ulong (default : Z) (a : float) : Z :=
  let n := to_uint32 a in
  if (n <=? 2147483647)%Z then n else default.

Definition set_width (c : Canvas.t) (a : float) : Canvas.t :=
  {| Canvas.width := reflect_ulong 300 a; Canvas.height := Canvas.height c |}.

Definition set_height (c : Canvas.t) (a : float) : Canvas.t :=
  {| Canvas.width := Canvas.width c; Canvas.height := reflect_ulong 150 a |}.

Definition width_num (c : Canvas.t) : float := of_Z (Canvas.width c).
Definition height_num (c : Canvas.t) : float := of_Z (Canvas.height c).

(** ** class Utils *)

(** [Math.max(0, Math.min(1, (x - edge1) / (edge2 - edge1)))] *)
Definition smoothStep_x (x edge1 edge2 : float) : float :=
  max 0 (min 1 ((x - edge1) / (edge2 - edge1))).

(** [Utils.smoothStep(x, edge1, edge2)] *)
Definition smoothStep (x edge1 edge2 : float) : float :=
  let x := smoothStep_x x edge1 edge2 in
  x * x * (3 - 2 * x).

(** ** class TiledSwirl: the numeric fields *)

Record t : Type := {
  density : float;
  edge : float;
  ripple : float;
  speed : float;
  tightness : float;
  rows : float;
  cols : float;
  size : float;
  time : float;
  distanceMax : float;
  canvas : option Canvas.t
}.

(** The numeric fields once the field initialisers and [this.canvas = canvas]
    have run, for a given density. *)
Definition fields (c : Canvas.t) (d : float) : t :=
  {| density := d;
     edge := 0.1;
     ripple := 5;
     speed := 0.03;
     tightness := 3;
     rows := 0;
     cols := 0;
     size := 0;
     time := 0;
     distanceMax := 0;
     canvas := Some c |}.

(** [canvasResize()] *)
Definition canvasResize (h : Host) (s : t) : t :=
  match canvas s with
  | None => s
  | Some c =>
      let ratio := devicePixelRatio h in
      let c := set_width c (innerWidth h * ratio) in
      let c := set_height c (innerHeight h * ratio) in
      let width := width_num c in
      let height := height_num c in
      let size := (min width height / density s) / ratio in
      let rows := ceil ((height / size) / ratio) in
      let cols := ceil ((width / size) / ratio) in
      let halfWidth := (width / 2) / ratio in
      let halfHeight := (height / 2) / ratio in
      {| density := density s;
         edge := edge s;
         ripple := ripple s;
         speed := speed s;
         tightness := tightness s;
         rows := rows;
         cols := cols;
         size := size;
         time := time s;
         distanceMax := sqrt (pow2 halfWidth + pow2 halfHeight);
         canvas := Some c |}
  end.

(** *** The tile field of [draw] *)

Section Tile.

Variable h : Host.
Variable s : t.
Variable c : Canvas.t.

Definition ratio : float := devicePixelRatio h.
Definition centerX : float := (width_num c / ratio) / 2.
Definition centerY : float := (height_num c / ratio) / 2.

Definition tileLeft (i : nat) : float := of_nat i * size s.
Definition tileTop (j : nat) : float := of_nat j * size s.

Definition angleX (i : nat) : float := tileLeft i + size s / 2 - centerX.
Definition angleY (j : nat) : float := tileTop j + size s / 2 - centerY.

Definition dist (i j : nat) : float :=
  let legHorizontal := pow2 (tileLeft i + size s / 2 - centerX) in
  let legVertical := pow2 (tileTop j + size s / 2 - centerY) in
  sqrt (legHorizontal + legVertical).

Definition distNormalized (i j : nat) : float := dist i j / distanceMax s.

(** The argument of [Math.sin], for the normalised distance and the value
    [angle] that [Math.atan2(angleY, angleX)] returned. *)
Definition phase (distNormalized angle : float) : float :=
  let rippleFactor := tightness s * (1 + distNormalized * ripple s) in
  distNormalized * rippleFactor + angle - time s.

Definition waveNormalized_of (wave : float) : float := (wave + 1) / 2.

Definition edge1 : float := 0.5 - edge s.
Definition edge2 : float := 0.5 + edge s.

(** [tileSize], for the value [wave] that [Math.sin] returned. *)
Definition tileSize_of (wave : float) : float :=
  let waveEdged := smoothStep (waveNormalized_of wave) edge1 edge2 in
  size s * 0.2 + (size s * 0.8 * waveEdged).

End Tile.

(** ** Sessions *)

Definition window (w h : float) : Host :=
  {| innerWidth := w; innerHeight := h; devicePixelRatio := 1 |}.

(** The canvas of the page before the first resize. *)
Definition page : Canvas.t := {| Canvas.width := 300; Canvas.height := 150 |}.

(** The default object after its first [canvasResize] on an 800 x 600
    window and on a 1366 x 768 window. *)
Definition swirl_800x600 : t := canvasResize (window 800 600) (fields page 32).
Definition swirl_1366x768 : t := canvasResize (window 1366 768) (fields page 32).

(** The object of density 7 on the 800 x 600 window. *)
Definition swirl_800x600_density7 : t :=
  canvasResize (window 800 600) (fields page 7).

(** The objects of density 1 on a 100 x 100 and on a 24 x 24 window: one
    tile, whose centre is the centre of the field. *)
Definition lone_100 : t := canvasResize (window 100 100) (fields page 1).
Definition lone_24 : t := canvasResize (window 24 24) (fields page 1).

End Double.
(** * Properties *)

(** ** Numbers *)


Lemma finite_real (a : num) : finite a -> a = Fin (real a).
Proof. destruct a; simpl; intros H; now try contradiction. Qed.

Lemma Rsign_spec (r : R) :
  match Rsign r with
  | Lt => r < 0
  | Eq => r = 0
  | Gt => 0 < r
  end.
Proof.
  unfold Rsign. destruct (total_order_T r 0) as [[H | H] | H]; assumption.
Qed.

Lemma Rsign_Gt (r : R) : 0 < r -> Rsign r = Gt.
Proof.
  intros H. generalize (Rsign_spec r).
  destruct (Rsign r); intros; trivial; lra.
Qed.

Lemma Rsign_Lt (r : R) : r < 0 -> Rsign r = Lt.
Proof.
  intros H. generalize (Rsign_spec r).
  destruct (Rsign r); intros; trivial; lra.
Qed.

Lemma Rsign_Eq (r : R) : r = 0 -> Rsign r = Eq.
Proof.
  intros H. generalize (Rsign_spec r).
  destruct (Rsign r); intros; trivial; lra.
Qed.

Lemma div_Fin (x y : R) : y <> 0 -> div (Fin x) (Fin y) = Fin (x / y).
Proof.
  intros H. unfold div. generalize (Rsign_spec y).
  destruct (Rsign y); intros; trivial; contradiction.
Qed.

Lemma div_zero_pos (x : R) : 0 < x -> div (Fin x) (Fin 0) = PInf.
Proof. intros H. unfold div. now rewrite (Rsign_Eq 0), (Rsign_Gt x). Qed.

Lemma sqrt_Fin (r : R) : 0 <= r -> sqrt (Fin r) = Fin (R_sqrt.sqrt r).
Proof.
  intros H. unfold sqrt. generalize (Rsign_spec r).
  destruct (Rsign r); intros; trivial; lra.
Qed.


Lemma Rclamp01_bounds (q : R) : 0 <= Rclamp01 q <= 1.
Proof.
  unfold Rclamp01, Rmax, Rmin.
  destruct (Rle_dec 1 q); destruct (Rle_dec 0 _); lra.
Qed.

Lemma Rclamp01_id (q : R) : 0 <= q <= 1 -> Rclamp01 q = q.
Proof.
  intros H. unfold Rclamp01, Rmax, Rmin.
  destruct (Rle_dec 1 q); destruct (Rle_dec 0 _); lra.
Qed.

Lemma Rclamp01_low (q : R) : q <= 0 -> Rclamp01 q = 0.
Proof.
  intros H. unfold Rclamp01, Rmax, Rmin.
  destruct (Rle_dec 1 q); destruct (Rle_dec 0 _); lra.
Qed.

Lemma Rclamp01_high (q : R) : 1 <= q -> Rclamp01 q = 1.
Proof.
  intros H. unfold Rclamp01, Rmax, Rmin.
  destruct (Rle_dec 1 q); destruct (Rle_dec 0 _); lra.
Qed.

Lemma Rsmooth_bounds (x : R) : 0 <= x <= 1 -> 0 <= Rsmooth x <= 1.
Proof.
  intros [H0 H1]. unfold Rsmooth. split.
  - apply Rmult_le_pos; [nra | lra].
  - assert (0 <= (1 - x) * (1 - x) * (1 + 2 * x)) by (apply Rmult_le_pos; nra).
    nra.
Qed.

(** The cubic is strictly increasing on [0, 1]. *)
Lemma Rsmooth_increasing (x y : R) :
  0 <= x -> x < y -> y <= 1 -> Rsmooth x < Rsmooth y.
Proof.
  intros H0 Hxy H1. unfold Rsmooth.
  assert (E : y * y * (3 - 2 * y) - x * x * (3 - 2 * x)
              = (y - x) * (3 * (x + y) - 2 * (x * x + x * y + y * y))) by ring.
  assert (0 < 3 * (x + y) - 2 * (x * x + x * y + y * y)).
  { assert (0 <= x * (1 - x)) by (apply Rmult_le_pos; lra).
    assert (0 <= y * (1 - y)) by (apply Rmult_le_pos; lra).
    assert (0 <= x * (1 - y)) by (apply Rmult_le_pos; lra).
    assert (0 < y * (1 - x)) by (apply Rmult_lt_0_compat; lra).
    nra. }
  assert (0 < (y - x) * (3 * (x + y) - 2 * (x * x + x * y + y * y)))
    by (apply Rmult_lt_0_compat; lra).
  lra.
Qed.

Lemma smoothStep_x_Fin (a b c : R) :
  c - b <> 0 ->
  Utils.smoothStep_x (Fin a) (Fin b) (Fin c)
  = Fin (Rclamp01 ((a - b) / (c - b))).
Proof.
  intros H. unfold Utils.smoothStep_x, sub, neg, add.
  change (c + - b) with (c - b). change (a + - b) with (a - b).
  rewrite div_Fin by assumption. reflexivity.
Qed.

Lemma smoothStep_Fin (a b c : R) :
  c - b <> 0 ->
  Utils.smoothStep (Fin a) (Fin b) (Fin c)
  = Fin (Rsmooth (Rclamp01 ((a - b) / (c - b)))).
Proof.
  intros H. unfold Utils.smoothStep. rewrite smoothStep_x_Fin by assumption.
  reflexivity.
Qed.

(** ** The tile field on a finite geometry *)

Section RealFieldFacts.

Variable h : Host.
Variable s : t.
Variable c : Canvas.t.

Hypothesis geo : Geometry h s.
Hypothesis tun : Tuning s.

Lemma centerX_Fin : centerX h c = Fin (RcenterX h c).
Proof.
  destruct geo as [Hr Hrp _ _ _ _].
  unfold centerX, ratio, RcenterX, Canvas.width_num.
  rewrite (finite_real _ Hr), div_Fin by lra. rewrite div_Fin by lra.
  reflexivity.
Qed.

Lemma centerY_Fin : centerY h c = Fin (RcenterY h c).
Proof.
  destruct geo as [Hr Hrp _ _ _ _].
  unfold centerY, ratio, RcenterY, Canvas.height_num.
  rewrite (finite_real _ Hr), div_Fin by lra. rewrite div_Fin by lra.
  reflexivity.
Qed.

Lemma angleX_Fin (i : nat) : angleX h s c i = Fin (RangleX h s c i).
Proof.
  unfold angleX, tileLeft, of_nat. rewrite centerX_Fin.
  rewrite (finite_real _ (geo_size _ _ geo)). rewrite div_Fin by lra.
  reflexivity.
Qed.

Lemma angleY_Fin (j : nat) : angleY h s c j = Fin (RangleY h s c j).
Proof.
  unfold angleY, tileTop, of_nat. rewrite centerY_Fin.
  rewrite (finite_real _ (geo_size _ _ geo)). rewrite div_Fin by lra.
  reflexivity.
Qed.

Lemma dist_Fin (i j : nat) : dist h s c i j = Fin (Rdist h s c i j).
Proof.
  unfold dist. fold (angleX h s c i) (angleY h s c j).
  rewrite angleX_Fin, angleY_Fin. simpl pow2. unfold add.
  rewrite sqrt_Fin; [reflexivity |].
  generalize (pow2_ge_0 (RangleX h s c i)) (pow2_ge_0 (RangleY h s c j)).
  lra.
Qed.

Lemma distNormalized_Fin (i j : nat) :
  distNormalized h s c i j = Fin (RdistNormalized h s c i j).
Proof.
  unfold distNormalized. rewrite dist_Fin.
  rewrite (finite_real _ (geo_distanceMax _ _ geo)).
  rewrite div_Fin; [reflexivity |].
  generalize (geo_distanceMax_pos _ _ geo). lra.
Qed.

Lemma angle_Fin (i j : nat) : angle h s c i j = Fin (Rangle h s c i j).
Proof. unfold angle. now rewrite angleX_Fin, angleY_Fin. Qed.

Lemma wave_of_Fin (dn a : R) :
  wave_of s (Fin dn) (Fin a) = Fin (Rtrigo_def.sin (Rphase s dn a)).
Proof.
  destruct tun as [_ Ht Hr Htm]. unfold wave_of.
  rewrite (finite_real _ Ht), (finite_real _ Hr), (finite_real _ Htm).
  reflexivity.
Qed.

Lemma wave_Fin (i j : nat) : wave h s c i j = Fin (Rwave h s c i j).
Proof.
  unfold wave. now rewrite distNormalized_Fin, angle_Fin, wave_of_Fin.
Qed.

Lemma tileSize_of_Fin (w : R) :
  real (edge s) <> 0 -> tileSize_of s (Fin w) = Fin (RtileSize_of s w).
Proof.
  intros He. unfold tileSize_of, waveNormalized_of, edge1, edge2.
  rewrite (finite_real _ (tun_edge _ tun)).
  rewrite (finite_real _ (geo_size _ _ geo)).
  cbn [add sub neg]. rewrite div_Fin by lra.
  change (0.5 + - real (edge s)) with (0.5 - real (edge s)).
  rewrite smoothStep_Fin by lra. reflexivity.
Qed.

Lemma tileSize_Fin (i j : nat) :
  real (edge s) <> 0 ->
  tileSize h s c i j = Fin (RtileSize_of s (Rwave h s c i j)).
Proof.
  intros He. unfold tileSize. rewrite wave_Fin. now apply tileSize_of_Fin.
Qed.

Lemma RtileSize_of_bounds (w : R) :
  0.2 * real (size s) <= (RtileSize_of s w) <= 1.0 * real (size s).
Proof.
  unfold RtileSize_of.
  generalize (Rsmooth_bounds _ (Rclamp01_bounds
    (((w + 1) / 2 - (0.5 - real (edge s)))
     / ((0.5 + real (edge s)) - (0.5 - real (edge s)))))).
  fold (Rsharp_x s w). generalize (geo_size_pos _ _ geo). nra.
Qed.

End RealFieldFacts.

(** ** Grid geometry *)


Lemma canvasResize_canvas (h : Host) (s : t) (c0 : Canvas.t) :
  canvas s = Some c0 -> canvas (canvasResize h s) = Some (resized_canvas h c0).
Proof. intros E. unfold canvasResize. rewrite E. reflexivity. Qed.

Lemma canvasResize_canvas_inv (h : Host) (s : t) (c : Canvas.t) :
  canvas (canvasResize h s) = Some c ->
  exists c0, canvas s = Some c0 /\ c = resized_canvas h c0.
Proof.
  destruct (canvas s) as [c0 |] eqn:E.
  - rewrite (canvasResize_canvas h s c0 E). intros [= <-]. now exists c0.
  - unfold canvasResize. rewrite E, E. discriminate.
Qed.

Section CanvasResize.

Variable h : Host.
Variable s : t.
Variable c : Canvas.t.

Hypothesis Hcanvas : canvas (canvasResize h s) = Some c.
Hypothesis Hwidth : (0 < Canvas.width c)%Z.
Hypothesis Hheight : (0 < Canvas.height c)%Z.
Hypothesis Hratio : finite (devicePixelRatio h).
Hypothesis Hratio_pos : 0 < real (devicePixelRatio h).
Hypothesis Hdensity : finite (density s).
Hypothesis Hdensity_pos : 0 < real (density s).

Let vw : R := IZR (Canvas.width c).
Let vh : R := IZR (Canvas.height c).
Let rho : R := real (devicePixelRatio h).
Let g : Spec.Grid := Spec.computeGeometry vw vh rho (real (density s)).

Lemma vw_pos : 0 < vw.
Proof. unfold vw. now apply IZR_lt. Qed.

Lemma vh_pos : 0 < vh.
Proof. unfold vh. now apply IZR_lt. Qed.

Lemma tileEdge_pos : 0 < Spec.tileEdge g.
Proof.
  unfold g, Spec.computeGeometry. cbn [Spec.tileEdge].
  generalize (Rmin_pos vw vh vw_pos vh_pos). intros Hm.
  apply Rdiv_lt_0_compat; [apply Rdiv_lt_0_compat |]; assumption.
Qed.

Lemma canvasResize_size : size (canvasResize h s) = Fin (Spec.tileEdge g).
Proof.
  destruct (canvasResize_canvas_inv h s c Hcanvas) as [c0 [E0 Ec]].
  unfold canvasResize. rewrite E0. cbn [size]. fold (resized_canvas h c0).
  rewrite <- Ec. unfold Canvas.width_num, Canvas.height_num. cbn [min].
  rewrite (finite_real _ Hdensity), (finite_real _ Hratio).
  rewrite div_Fin by lra. rewrite div_Fin by lra. reflexivity.
Qed.

Lemma canvasResize_rows :
  rows (canvasResize h s) = Fin (IZR (Spec.gridRows g)).
Proof.
  generalize canvasResize_size tileEdge_pos. intros Hs Hp.
  destruct (canvasResize_canvas_inv h s c Hcanvas) as [c0 [E0 Ec]].
  revert Hs. unfold canvasResize. rewrite E0. cbn [size rows].
  fold (resized_canvas h c0). rewrite <- Ec. intros ->.
  unfold Canvas.height_num. rewrite (finite_real _ Hratio).
  rewrite div_Fin by lra. rewrite div_Fin by lra. reflexivity.
Qed.

Lemma canvasResize_cols :
  cols (canvasResize h s) = Fin (IZR (Spec.gridCols g)).
Proof.
  generalize canvasResize_size tileEdge_pos. intros Hs Hp.
  destruct (canvasResize_canvas_inv h s c Hcanvas) as [c0 [E0 Ec]].
  revert Hs. unfold canvasResize. rewrite E0. cbn [size cols].
  fold (resized_canvas h c0). rewrite <- Ec. intros ->.
  unfold Canvas.width_num. rewrite (finite_real _ Hratio).
  rewrite div_Fin by lra. rewrite div_Fin by lra. reflexivity.
Qed.

Lemma canvasResize_distanceMax :
  distanceMax (canvasResize h s) = Fin (Spec.maxDistance g).
Proof.
  destruct (canvasResize_canvas_inv h s c Hcanvas) as [c0 [E0 Ec]].
  unfold canvasResize. rewrite E0. cbn [distanceMax].
  fold (resized_canvas h c0). rewrite <- Ec.
  unfold Canvas.width_num, Canvas.height_num.
  rewrite (finite_real _ Hratio).
  rewrite !(div_Fin _ 2) by lra. rewrite !div_Fin by lra.
  cbn [pow2 add]. rewrite sqrt_Fin.
  - unfold g, Spec.computeGeometry. cbn [Spec.maxDistance]. f_equal. f_equal.
    unfold vw, vh, rho. field. lra.
  - generalize
      (pow2_ge_0 (IZR (Canvas.width c) / 2 / real (devicePixelRatio h)))
      (pow2_ge_0 (IZR (Canvas.height c) / 2 / real (devicePixelRatio h))).
    lra.
Qed.

Lemma maxDistance_pos : 0 < Spec.maxDistance g.
Proof.
  unfold g, Spec.computeGeometry. cbn [Spec.maxDistance].
  apply sqrt_lt_R0.
  assert (0 < vw / rho / 2)
    by (apply Rdiv_lt_0_compat; [apply Rdiv_lt_0_compat |];
        [exact vw_pos | exact Hratio_pos | lra]).
  generalize (pow2_ge_0 (vh / rho / 2)). nra.
Qed.

(** The geometry [draw] needs is in place after [canvasResize]. *)
Lemma canvasResize_geometry : Geometry h (canvasResize h s).
Proof.
  split; trivial.
  - now rewrite canvasResize_size.
  - rewrite canvasResize_size. exact tileEdge_pos.
  - now rewrite canvasResize_distanceMax.
  - rewrite canvasResize_distanceMax. exact maxDistance_pos.
Qed.

Lemma canvasResize_origin_in_grid : in_grid (canvasResize h s) 0 0.
Proof.
  generalize tileEdge_pos vw_pos vh_pos. intros Hp Hw Hh.
  assert (Hrho : 0 < rho) by exact Hratio_pos.
  unfold in_grid. rewrite canvasResize_cols, canvasResize_rows.
  unfold g, Spec.computeGeometry in *.
  cbn [Spec.gridCols Spec.gridRows Spec.tileEdge] in *. cbn [of_nat less INR].
  set (te := Rmin vw vh / real (density s) / rho) in *.
  assert (Hqw : 0 < vw / te / rho)
    by (apply Rdiv_lt_0_compat; [apply Rdiv_lt_0_compat |]; assumption).
  assert (Hqh : 0 < vh / te / rho)
    by (apply Rdiv_lt_0_compat; [apply Rdiv_lt_0_compat |]; assumption).
  generalize (Zceil_bound (vw / te / rho)) (Zceil_bound (vh / te / rho)). lra.
Qed.

End CanvasResize.

(** ** The concrete session *)

Lemma Rtrunc_IZR (z : Z) : Canvas.Rtrunc (IZR z) = z.
Proof.
  unfold Canvas.Rtrunc. destruct (Rle_dec 0 (IZR z)).
  - apply ZfloorZ.
  - apply Zceil_eq. lra.
Qed.

Lemma reflect_ulong_IZR (default z : Z) (r : R) :
  r = IZR z -> (0 <= z <= 2147483647)%Z ->
  Canvas.reflect_ulong default (Fin r) = z.
Proof.
  intros -> Hz. unfold Canvas.reflect_ulong, Canvas.to_uint32.
  rewrite Rtrunc_IZR. rewrite Z.mod_small by lia.
  destruct (Z.leb_spec z 2147483647); [reflexivity | lia].
Qed.

Lemma window_800x600_canvas (s : t) (c0 : Canvas.t) :
  canvas s = Some c0 ->
  canvas (canvasResize window_800x600 s) = Some canvas_800x600.
Proof.
  intros E. rewrite (canvasResize_canvas _ _ c0 E).
  unfold resized_canvas, Canvas.set_height, Canvas.set_width, canvas_800x600.
  cbn [Canvas.width Canvas.height window_800x600 innerWidth innerHeight
       devicePixelRatio mul].
  rewrite (reflect_ulong_IZR 300 800) by (lra || lia).
  rewrite (reflect_ulong_IZR 150 600) by (lra || lia).
  reflexivity.
Qed.

Lemma swirl_800x600_canvas : canvas swirl_800x600 = Some canvas_800x600.
Proof. now apply (window_800x600_canvas _ page_canvas). Qed.

Lemma swirl_800x600_geometry : Geometry window_800x600 swirl_800x600.
Proof.
  apply (canvasResize_geometry _ _ _ swirl_800x600_canvas); simpl;
    (lia || lra || exact I).
Qed.

Lemma swirl_800x600_tuning : Tuning swirl_800x600.
Proof. split; exact I. Qed.

Lemma swirl_800x600_origin : in_grid swirl_800x600 0 0.
Proof.
  apply (canvasResize_origin_in_grid _ _ _ swirl_800x600_canvas); simpl;
    (lia || lra || exact I).
Qed.

(** ** C1: the bounds of the render size *)

(** The two thresholds of [smoothStep] are apart exactly when the edge
    threshold is positive. *)
Lemma thresholds_apart (s : t) :
  finite (edge s) -> less (edge1 s) (edge2 s) -> 0 < real (edge s).
Proof.
  unfold edge1, edge2. destruct (edge s) as [e | | |]; try contradiction.
  intros _. cbn [JsNum.add JsNum.sub JsNum.neg less real]. lra.
Qed.

(** In the order in which [draw] computes it, the render size lies between
    the size of a collapsed tile, [size * 0.2], and the size of a saturated
    tile, [size * 0.2 + size * 0.8]; this needs no more of the edge threshold
    than that it is not zero. *)
Lemma tileSize_between (h : Host) (s : t) (c : Canvas.t) (i j : nat) :
  Geometry h s -> Tuning s -> real (edge s) <> 0 ->
  exists r lo hi : R,
    tileSize h s c i j = Fin r
    /\ (size s * Fin 0.2)%js = Fin lo
    /\ (size s * Fin 0.2 + size s * Fin 0.8)%js = Fin hi
    /\ 0 < lo /\ lo <= r <= hi.
Proof.
  intros geo tun He.
  generalize (RtileSize_of_bounds h s geo (Rwave h s c i j)).
  generalize (geo_size_pos _ _ geo). intros Hz Hb.
  exists (RtileSize_of s (Rwave h s c i j)),
    (real (size s) * 0.2), (real (size s) * 0.2 + real (size s) * 0.8).
  rewrite (finite_real _ (geo_size _ _ geo)). cbn [JsNum.mul JsNum.add real].
  repeat split; trivial; try lra.
  now apply tileSize_Fin.
Qed.



(** ** [colorsInit] *)

Lemma arr_get_last {A : Type} (a : array A) (v : option A) :
  arr_get (a ++ [v]) (length a) = v.
Proof.
  unfold arr_get. rewrite nth_error_app2 by lia.
  now rewrite Nat.sub_diag.
Qed.

Lemma arr_set_push {A : Type} (a : array A) (v : option A) :
  arr_set a (length a) v = a ++ [v].
Proof.
  unfold arr_set. rewrite Nat.ltb_irrefl, Nat.sub_diag. reflexivity.
Qed.

Lemma replace_nth_last {A : Type} (l : list A) (x v : A) :
  replace_nth (l ++ [x]) (length l) v = l ++ [v].
Proof. induction l as [| y l IH]; simpl; [reflexivity | now rewrite IH]. Qed.

Lemma arr_set_last {A : Type} (a : array A) (x v : option A) :
  arr_set (a ++ [x]) (length a) v = a ++ [v].
Proof.
  unfold arr_set. rewrite length_app. simpl.
  destruct (Nat.ltb_spec (length a) (length a + 1)); [| lia].
  apply replace_nth_last.
Qed.

Lemma map_seq_shift {A : Type} (f : nat -> A) (n : nat) :
  map f (seq 1 n) = map (fun d => f (Datatypes.S d)) (seq 0 n).
Proof. now rewrite <- seq_shift, map_map. Qed.

(** The inner loop appends one entry per row to the last column. *)
Lemma colorsInit_inner (h : Host) (s : t) (n : nat) :
  forall (cs : array (array string)) (col : array string) (k : nat),
    for_loop (colorsInit_cell h s (length cs)) (length col) n
      (cs ++ [Some col], k)
    = Done (cs ++ [Some (col ++ column_values h (palette s) k n)],
            (k + n)%nat).
Proof.
  induction n as [| n IH]; intros cs col k.
  - simpl. now rewrite app_nil_r, Nat.add_0_r.
  - unfold column_values in *. cbn [for_loop]. unfold colorsInit_cell at 1.
    rewrite arr_get_last. cbn [bind].
    rewrite arr_set_push, arr_set_last.
    fold (cell_value h (palette s) k).
    replace (Datatypes.S (length col))
      with (length (col ++ [cell_value h (palette s) k]))
      by (rewrite length_app; simpl; lia).
    rewrite IH, <- app_assoc. cbn [seq map app].
    rewrite Nat.add_0_r, map_seq_shift.
    replace (map (fun d => cell_value h (palette s) (Datatypes.S k + d))
               (seq 0 n))
      with (map (fun d => cell_value h (palette s) (k + Datatypes.S d))
              (seq 0 n))
      by (apply map_ext; intros d; f_equal; lia).
    replace (Datatypes.S k + n)%nat with (k + Datatypes.S n)%nat by lia.
    reflexivity.
Qed.

(** The outer loop appends one column per iteration. *)
Lemma colorsInit_outer (h : Host) (s : t) (nr : nat) :
  loop_count (rows s) = Some nr ->
  forall (n : nat) (cs : array (array string)) (k : nat),
    for_loop (colorsInit_column h s) (length cs) n (cs, k)
    = Done (cs ++ table_values h (palette s) k n nr, (k + n * nr)%nat).
Proof.
  intros Hr. unfold table_values. induction n as [| n IH]; intros cs k.
  - simpl. now rewrite app_nil_r, Nat.add_0_r.
  - cbn [for_loop]. unfold colorsInit_column at 1. rewrite Hr.
    cbn [for_count]. rewrite arr_set_push.
    change 0%nat with (length (@nil (option string))) at 1.
    rewrite colorsInit_inner. cbn [bind app].
    replace (Datatypes.S (length cs))
      with (length (cs ++ [Some (column_values h (palette s) k nr)]))
      by (rewrite length_app; simpl; lia).
    fold (column_values h (palette s) k nr).
    rewrite IH, <- app_assoc. cbn [seq map app].
    rewrite Nat.mul_0_l, Nat.add_0_r, map_seq_shift.
    replace (map (fun d => Some (column_values h (palette s)
                                   (k + nr + d * nr) nr)) (seq 0 n))
      with (map (fun d => Some (column_values h (palette s)
                                  (k + Datatypes.S d * nr) nr)) (seq 0 n))
      by (apply map_ext; intros d; do 2 f_equal; lia).
    replace (k + nr + n * nr)%nat with (k + Datatypes.S n * nr)%nat by lia.
    reflexivity.
Qed.

(** With finite loop bounds [colorsInit] returns: it replaces the table by
    [nc] columns of [nr] entries and consumes [nc * nr] random words. *)
Lemma colorsInit_returns (h : Host) (s : t) (k nc nr : nat) :
  loop_count (cols s) = Some nc -> loop_count (rows s) = Some nr ->
  colorsInit h k s
  = Done (set_colors s (table_values h (palette s) k nc nr),
          (k + nc * nr)%nat).
Proof.
  intros Hc Hr. unfold colorsInit. rewrite Hc. cbn [for_count].
  change 0%nat with (length (@nil (option (array string)))) at 1.
  rewrite (colorsInit_outer h s nr Hr). reflexivity.
Qed.

(** Without columns nothing is drawn from the random source, whatever the
    number of rows (even [+Infinity]). *)
Lemma colorsInit_no_columns (h : Host) (s : t) (k : nat) :
  loop_count (cols s) = Some O -> colorsInit h k s = Done (set_colors s [], k).
Proof. intros Hc. unfold colorsInit. rewrite Hc. reflexivity. Qed.

Lemma table_values_column (h : Host) (p : list string) (k nc nr i : nat) :
  (i < nc)%nat ->
  arr_get (table_values h p k nc nr) i
  = Some (column_values h p (k + i * nr) nr).
Proof.
  intros Hi. unfold arr_get, table_values.
  rewrite nth_error_map, nth_error_seq.
  destruct (Nat.ltb_spec i nc); [reflexivity | lia].
Qed.

Lemma table_values_outside (h : Host) (p : list string) (k nc nr i : nat) :
  (nc <= i)%nat -> arr_get (table_values h p k nc nr) i = None.
Proof.
  intros Hi. unfold arr_get, table_values.
  rewrite nth_error_map, nth_error_seq.
  destruct (Nat.ltb_spec i nc); [lia | reflexivity].
Qed.

Lemma column_values_entry (h : Host) (p : list string) (k nr j : nat) :
  (j < nr)%nat ->
  nth_error (column_values h p k nr) j = Some (cell_value h p (k + j)).
Proof.
  intros Hj. unfold column_values.
  rewrite nth_error_map, nth_error_seq.
  destruct (Nat.ltb_spec j nr); [reflexivity | lia].
Qed.

Lemma table_values_entry (h : Host) (p : list string) (k nc nr i j : nat) :
  (i < nc)%nat -> (j < nr)%nat ->
  color_at (table_values h p k nc nr) i j = cell_value h p (k + i * nr + j).
Proof.
  intros Hi Hj. unfold color_at. rewrite table_values_column by assumption.
  unfold arr_get. now rewrite column_values_entry.
Qed.

(** ** C10: the random index stays inside the palette *)

Lemma two_pow_32 : 2 ^ 32 = IZR (2 ^ 32)%Z.
Proof. rewrite pow_IZR. reflexivity. Qed.

Lemma random_range (raw : Z) :
  exists r : R, Utils.random raw = Fin r /\ 0 <= r < 1.
Proof.
  exists (IZR (raw mod 2 ^ 32) / 2 ^ 32).
  assert (Hp : 0 < 2 ^ 32) by (apply pow_lt; lra).
  destruct (Z.mod_pos_bound raw (2 ^ 32)%Z) as [Hlo Hhi]; [lia |].
  apply IZR_le in Hlo. apply IZR_lt in Hhi. rewrite <- two_pow_32 in Hhi.
  split.
  - unfold Utils.random. apply div_Fin. lra.
  - split.
    + apply Rmult_le_pos; [exact Hlo | left; now apply Rinv_0_lt_compat].
    + apply Rmult_lt_reg_r with (2 ^ 32); [exact Hp |].
      unfold Rdiv. rewrite Rmult_assoc, Rinv_l by lra. lra.
Qed.

Lemma index_of_nat (n : nat) : index_of (of_nat n) = Some n.
Proof.
  unfold index_of, of_nat. rewrite INR_IZR_INZ, ZfloorZ.
  destruct (Req_dec_T (IZR (Z.of_nat n)) (IZR (Z.of_nat n))); [| contradiction].
  destruct (Rle_dec 0 (IZR (Z.of_nat n))) as [_ | Hn].
  - now rewrite Nat2Z.id.
  - exfalso. apply Hn. apply IZR_le. lia.
Qed.

Lemma palette_index_range (p : list string) (raw : Z) :
  p <> [] ->
  exists n : nat, palette_index p raw = of_nat n /\ (n < length p)%nat.
Proof.
  intros Hp. destruct (random_range raw) as [r [Er [Hr0 Hr1]]].
  assert (Hlen : 0 < INR (length p)).
  { apply lt_0_INR. destruct p; [contradiction | simpl; lia]. }
  unfold palette_index. rewrite Er. cbn [of_nat mul floor].
  set (x := r * INR (length p)).
  assert (Hx0 : 0 <= x) by (apply Rmult_le_pos; lra).
  assert (Hx1 : x < INR (length p)) by (unfold x; nra).
  assert (Hz0 : (0 <= Zfloor x)%Z) by (apply Zfloor_lub; exact Hx0).
  assert (Hz1 : (Zfloor x < Z.of_nat (length p))%Z).
  { apply lt_IZR. rewrite <- INR_IZR_INZ.
    destruct (Zfloor_bound x). lra. }
  exists (Z.to_nat (Zfloor x)). split.
  - unfold of_nat. now rewrite INR_IZR_INZ, Z2Nat.id.
  - lia.
Qed.

Lemma cell_value_in_palette (h : Host) (s : t) (k : nat) :
  palette s <> [] ->
  exists color : string,
    cell_value h (palette s) k = Some color /\ In color (palette s).
Proof.
  intros Hp.
  destruct (palette_index_range (palette s) (entropy h k) Hp) as [n [En Hn]].
  unfold cell_value, palette_at. rewrite En, index_of_nat.
  destruct (nth_error (palette s) n) as [color |] eqn:E.
  - exists color. split; [reflexivity | now apply nth_error_In with n].
  - apply nth_error_None in E. lia.
Qed.

(** Every entry of the table is an entry some random word selected. *)
Lemma table_values_defined
    (h : Host) (p : list string) (k nc nr i j : nat) (v : string) :
  color_at (table_values h p k nc nr) i j = Some v ->
  (i < nc)%nat /\ (j < nr)%nat /\ cell_value h p (k + i * nr + j) = Some v.
Proof.
  intros E. destruct (Nat.lt_ge_cases i nc) as [Hi | Hi].
  - destruct (Nat.lt_ge_cases j nr) as [Hj | Hj].
    + rewrite table_values_entry in E by assumption. auto.
    + unfold color_at in E. rewrite table_values_column in E by assumption.
      unfold arr_get in E.
      assert (N : nth_error (column_values h p (k + i * nr) nr) j = None).
      { apply nth_error_None. unfold column_values.
        now rewrite length_map, length_seq. }
      rewrite N in E. discriminate.
  - unfold color_at in E. rewrite table_values_outside in E by assumption.
    discriminate.
Qed.

(** C10.  [Utils.random()] returns a finite value in [0, 1); for a non-empty
    palette [Math.floor(Utils.random() * palette.length)] is an integer index
    below [palette.length]; and [colorsInit], which returns whenever its loop
    bounds are finite, leaves a table whose [cols * rows] entries are all
    defined and all elements of the palette. *)
Theorem colorsInit_entries_in_palette (h : Host) (s : t) (k nc nr : nat) :
  palette s <> [] ->
  loop_count (cols s) = Some nc -> loop_count (rows s) = Some nr ->
  (forall raw : Z, exists r : R, Utils.random raw = Fin r /\ 0 <= r < 1)
  /\ (forall raw : Z, exists n : nat,
        palette_index (palette s) raw = of_nat n
        /\ (n < length (palette s))%nat)
  /\ exists s' : t,
       colorsInit h k s = Done (s', (k + nc * nr)%nat)
       /\ (forall i j : nat, (i < nc)%nat -> (j < nr)%nat ->
             exists color : string,
               color_at (colors s') i j = Some color /\ In color (palette s))
       /\ (forall (i j : nat) (v : string),
             color_at (colors s') i j = Some v -> In v (palette s)).
Proof.
  intros Hp Hc Hr. split; [exact random_range |].
  split; [intros raw; now apply palette_index_range |].
  exists (set_colors s (table_values h (palette s) k nc nr)).
  split; [now apply colorsInit_returns |]. cbn [colors set_colors]. split.
  - intros i j Hi Hj. rewrite table_values_entry by assumption.
    now apply cell_value_in_palette.
  - intros i j v E. apply table_values_defined in E.
    destruct E as [_ [_ E]].
    destruct (cell_value_in_palette h s (k + i * nr + j) Hp) as [c [Ec Hin]].
    rewrite Ec in E. now injection E as <-.
Qed.

Lemma ZceilZ (z : Z) : Zceil (IZR z) = z.
Proof. apply Zceil_eq. lra. Qed.

Lemma loop_count_IZR (z : Z) : loop_count (Fin (IZR z)) = Some (Z.to_nat z).
Proof. unfold loop_count. now rewrite ZceilZ. Qed.

Lemma geometry_800x600 :
  Spec.tileEdge (Spec.computeGeometry 800 600 1 32) = 18.75
  /\ Spec.gridRows (Spec.computeGeometry 800 600 1 32) = 32%Z
  /\ Spec.gridCols (Spec.computeGeometry 800 600 1 32) = 43%Z.
Proof.
  unfold Spec.computeGeometry.
  cbn [Spec.tileEdge Spec.gridRows Spec.gridCols].
  rewrite Rmin_right by lra.
  replace (600 / 32 / 1) with 18.75 by lra.
  split; [reflexivity | split]; apply Zceil_eq; lra.
Qed.

Lemma swirl_800x600_grid :
  size swirl_800x600 = Fin 18.75
  /\ rows swirl_800x600 = Fin 32 /\ cols swirl_800x600 = Fin 43.
Proof.
  destruct geometry_800x600 as [Es [Er Ec]].
  unfold swirl_800x600. repeat split.
  - rewrite <- Es.
    apply (canvasResize_size _ _ _ swirl_800x600_canvas); simpl;
      (lia || lra || exact I).
  - change 32 with (IZR 32). rewrite <- Er.
    apply (canvasResize_rows _ _ _ swirl_800x600_canvas); simpl;
      (lia || lra || exact I).
  - change 43 with (IZR 43). rewrite <- Ec.
    apply (canvasResize_cols _ _ _ swirl_800x600_canvas); simpl;
      (lia || lra || exact I).
Qed.

Lemma swirl_800x600_counts :
  loop_count (cols swirl_800x600) = Some 43%nat
  /\ loop_count (rows swirl_800x600) = Some 32%nat.
Proof.
  destruct swirl_800x600_grid as [_ [Er Ec]]. rewrite Er, Ec.
  split; apply loop_count_IZR.
Qed.

Lemma colorsInit_entries_in_palette_witness :
  (forall raw : Z, exists r : R, Utils.random raw = Fin r /\ 0 <= r < 1)
  /\ (forall raw : Z, exists n : nat,
        palette_index (palette swirl_800x600) raw = of_nat n
        /\ (n < length (palette swirl_800x600))%nat)
  /\ exists s' : t,
       colorsInit window_800x600 0 swirl_800x600 = Done (s', (0 + 43 * 32)%nat)
       /\ (forall i j : nat, (i < 43)%nat -> (j < 32)%nat ->
             exists color : string,
               color_at (colors s') i j = Some color
               /\ In color (palette swirl_800x600))
       /\ (forall (i j : nat) (v : string),
             color_at (colors s') i j = Some v -> In v (palette swirl_800x600)).
Proof.
  apply (colorsInit_entries_in_palette window_800x600 swirl_800x600 0 43 32).
  - discriminate.
  - exact (proj1 swirl_800x600_counts).
  - exact (proj2 swirl_800x600_counts).
Defined.

(** ** What [canvasResize] leaves alone *)

Ltac frame_canvasResize :=
  intros; unfold canvasResize;
  match goal with |- context [canvas ?s] => destruct (canvas s) end;
  reflexivity.

Lemma canvasResize_palette (h : Host) (s : t) :
  palette (canvasResize h s) = palette s.
Proof. frame_canvasResize. Qed.

Lemma canvasResize_colors (h : Host) (s : t) :
  colors (canvasResize h s) = colors s.
Proof. frame_canvasResize. Qed.

Lemma canvasResize_time (h : Host) (s : t) :
  time (canvasResize h s) = time s.
Proof. frame_canvasResize. Qed.

Lemma canvasResize_tuning (h : Host) (s : t) :
  edge (canvasResize h s) = edge s
  /\ tightness (canvasResize h s) = tightness s
  /\ ripple (canvasResize h s) = ripple s
  /\ speed (canvasResize h s) = speed s.
Proof. repeat split; frame_canvasResize. Qed.

Lemma canvasResize_ctx (h : Host) (s : t) : ctx (canvasResize h s) = ctx s.
Proof. frame_canvasResize. Qed.

Lemma canvasResize_density (h : Host) (s : t) :
  density (canvasResize h s) = density s.
Proof. frame_canvasResize. Qed.

(** ** [draw] *)

Lemma loop_count_lt (n : num) (count i : nat) :
  loop_count n = Some count -> (i < count)%nat -> less (of_nat i) n.
Proof.
  destruct n as [x | | |]; simpl; intros [= <-] Hi; try lia.
  assert (Hz : (Z.of_nat i < Zceil x)%Z) by lia.
  destruct (Zceil_bound x) as [Hlo _].
  apply IZR_lt in Hz. rewrite <- INR_IZR_INZ in Hz.
  assert (INR i + 1 <= IZR (Zceil x)).
  { replace (INR i + 1) with (IZR (Z.of_nat i + 1))
      by (rewrite plus_IZR, <- INR_IZR_INZ; reflexivity).
    apply IZR_le. lia. }
  lra.
Qed.

(** The rectangles of the columns [start, start + n), each of [nr] rows, when
    every one of these columns exists in the colour table. *)
Lemma draw_columns_returns (h : Host) (s : t) (c : Canvas.t) (nr n : nat) :
  forall start : nat,
    (forall i : nat, (start <= i < start + n)%nat ->
       arr_get (colors s) i <> None) ->
    exists rects : list Rect,
      draw_columns h s c (Some nr) start n = Done rects
      /\ forall r : Rect, In r rects ->
           exists (i j : nat) (col : array string),
             (start <= i < start + n)%nat /\ (j < nr)%nat
             /\ arr_get (colors s) i = Some col /\ r = tile h s c col i j.
Proof.
  induction n as [| n IH]; intros start Hcols.
  - exists []. split; [reflexivity | intros r []].
  - destruct (IH (Datatypes.S start)) as [rs [Ers Hrs]].
    { intros i Hi. apply Hcols. lia. }
    destruct (arr_get (colors s) start) as [col |] eqn:Ecol.
    2: { exfalso. apply (Hcols start); [lia | exact Ecol]. }
    exists (map (tile h s c col start) (seq 0 nr) ++ rs). split.
    + cbn [draw_columns]. unfold draw_column at 1. rewrite Ecol, Ers.
      reflexivity.
    + intros r Hr. apply in_app_or in Hr. destruct Hr as [Hr | Hr].
      * apply in_map_iff in Hr. destruct Hr as [j [<- Hj]].
        apply in_seq in Hj. exists start, j, col.
        repeat split; trivial; lia.
      * destruct (Hrs r Hr) as [i [j [col' [Hi [Hj [Ei Er]]]]]].
        exists i, j, col'. repeat split; trivial; lia.
Qed.

(** [draw] returns when the loop bounds are finite and the colour table has
    the columns the grid needs; what it fills are tiles of the grid. *)
Lemma draw_returns (h : Host) (s : t) (nc nr : nat) :
  loop_count (cols s) = Some nc -> loop_count (rows s) = Some nr ->
  (forall i : nat, (i < nc)%nat -> arr_get (colors s) i <> None) ->
  exists rects : list Rect,
    draw h s = Done rects
    /\ forall r : Rect, In r rects ->
         exists (c : Canvas.t) (i j : nat) (col : array string),
           canvas s = Some c /\ in_grid s i j /\ r = tile h s c col i j.
Proof.
  intros Hc Hr Hcols. unfold draw.
  destruct (canvas s) as [c |] eqn:Ecanvas.
  2: { exists []. split; [reflexivity | intros r []]. }
  destruct (ctx s).
  2: { exists []. split; [reflexivity | intros r []]. }
  rewrite Hc, Hr.
  destruct (draw_columns_returns h s c nr nc 0) as [rects [E Hrects]].
  { intros i Hi. apply Hcols. lia. }
  exists rects. split; [exact E |].
  intros r Hin. destruct (Hrects r Hin) as [i [j [col [Hi [Hj [_ Er]]]]]].
  exists c, i, j, col. repeat split; trivial.
  - apply (loop_count_lt _ nc); [exact Hc | lia].
  - now apply (loop_count_lt _ nr).
Qed.

(** Whatever [draw] returns is made of tiles of the field. *)
Lemma draw_column_inv (h : Host) (s : t) (c : Canvas.t)
    (count : option nat) (i : nat) (rects : list Rect) :
  draw_column h s c count i = Done rects ->
  forall r : Rect, In r rects ->
    exists (col : array string) (j : nat), r = tile h s c col i j.
Proof.
  unfold draw_column.
  destruct (arr_get (colors s) i) as [col |].
  - destruct count as [n |]; [| discriminate].
    intros [= <-] r Hr. apply in_map_iff in Hr.
    destruct Hr as [j [<- _]]. now exists col, j.
  - destruct count as [[| n] |]; try discriminate.
    intros [= <-] r [].
Qed.

Lemma draw_columns_inv (h : Host) (s : t) (c : Canvas.t)
    (count : option nat) (n : nat) :
  forall (start : nat) (rects : list Rect),
    draw_columns h s c count start n = Done rects ->
    forall r : Rect, In r rects ->
      exists (col : array string) (i j : nat), r = tile h s c col i j.
Proof.
  induction n as [| n IH]; intros start rects.
  - intros [= <-] r [].
  - cbn [draw_columns].
    destruct (draw_column h s c count start) as [r1 | |] eqn:E1;
      cbn [bind]; try discriminate.
    destruct (draw_columns h s c count (Datatypes.S start) n)
      as [r2 | |] eqn:E2; cbn [bind]; try discriminate.
    intros [= <-] r Hr. apply in_app_or in Hr. destruct Hr as [Hr | Hr].
    + destruct (draw_column_inv h s c count start r1 E1 r Hr) as [col [j ->]].
      now exists col, start, j.
    + exact (IH _ _ E2 r Hr).
Qed.

Lemma draw_inv (h : Host) (s : t) (rects : list Rect) :
  draw h s = Done rects ->
  forall r : Rect, In r rects ->
    exists (c : Canvas.t) (col : array string) (i j : nat),
      canvas s = Some c /\ r = tile h s c col i j.
Proof.
  unfold draw. destruct (canvas s) as [c |]; [| intros [= <-] r []].
  destruct (ctx s); [| intros [= <-] r []].
  destruct (loop_count (cols s)) as [n |].
  - intros E r Hr.
    destruct (draw_columns_inv h s c _ n 0 rects E r Hr) as [col [i [j ->]]].
    now exists c, col, i, j.
  - destruct (draw_columns h s c (loop_count (rows s)) 0
                (Datatypes.S (length (colors s)))); discriminate.
Qed.

(** ** The constructor *)

(** With finite loop bounds the constructor returns: the object is resized,
    themed, coloured and, when a drawing context exists, one frame older; the
    rectangles of the first frame are tiles of the grid. *)
Lemma constructor_returns (h : Host) (k : nat) (s : t) (nc nr : nat) :
  loop_count (cols (canvasResize h s)) = Some nc ->
  loop_count (rows (canvasResize h s)) = Some nr ->
  exists (s' : t) (rects : list Rect),
    constructor h k s = Done (s', (k + nc * nr)%nat, rects)
    /\ colors s' = table_values h (palette s) k nc nr
    /\ Kept (canvasResize h s) s'
    /\ (forall r : Rect, In r rects ->
          exists (c : Canvas.t) (i j : nat) (col : array string),
            canvas s' = Some c /\ in_grid s' i j /\ r = tile h s' c col i j).
Proof.
  intros Hc Hr. unfold constructor.
  set (s1 := canvasResize h s) in *.
  set (s2 := checkDarkTheme h s1).
  rewrite (colorsInit_returns h s2 k nc nr Hc Hr). cbn [bind fst snd].
  set (s3 := set_colors s2 (table_values h (palette s2) k nc nr)).
  assert (Ep : palette s2 = palette s) by apply canvasResize_palette.
  assert (Hsame : Kept s1 s3) by (split; auto).
  unfold animate. destruct (canvas s3) as [c |] eqn:Ecanvas.
  2: { exists s3, []. cbn [bind]. rewrite <- Ep.
       split; [reflexivity | split; [reflexivity | split; [exact Hsame |]]].
       intros r []. }
  destruct (ctx s3) eqn:Ectx.
  2: { exists s3, []. cbn [bind]. rewrite <- Ep.
       split; [reflexivity | split; [reflexivity | split; [exact Hsame |]]].
       intros r []. }
  set (s4 := set_time s3 (time s3 + speed s3)).
  destruct (draw_returns h s4 nc nr Hc Hr) as [rects [E Hrects]].
  { intros i Hi. cbn [s4 s3 set_time set_colors colors].
    rewrite table_values_column by assumption. discriminate. }
  exists s4, rects. rewrite E. cbn [bind]. rewrite <- Ep.
  split; [reflexivity | split; [reflexivity | split; [| exact Hrects]]].
  split; auto.
Qed.

(** ** C3: a density that is not positive *)

Lemma Rdiv_pos_neg (a b : R) : 0 < a -> b < 0 -> a / b < 0.
Proof.
  intros Ha Hb. replace (a / b) with (- (a / - b)) by (field; lra).
  assert (0 < a / - b) by (apply Rdiv_lt_0_compat; lra). lra.
Qed.

Lemma Rdiv_neg_pos (a b : R) : a < 0 -> 0 < b -> a / b < 0.
Proof.
  intros Ha Hb. replace (a / b) with (- (- a / b)) by (field; lra).
  assert (0 < - a / b) by (apply Rdiv_lt_0_compat; lra). lra.
Qed.

Section DegenerateDensity.

Variable h : Host.
Variable s : t.
Variable c : Canvas.t.
Variable d : R.

Hypothesis Hcanvas : canvas (canvasResize h s) = Some c.
Hypothesis Hwidth : (0 < Canvas.width c)%Z.
Hypothesis Hheight : (0 < Canvas.height c)%Z.
Hypothesis Hratio : finite (devicePixelRatio h).
Hypothesis Hratio_pos : 0 < real (devicePixelRatio h).
Hypothesis Hdensity : density s = Fin d.

Let vw : R := IZR (Canvas.width c).
Let vh : R := IZR (Canvas.height c).
Let rho : R := real (devicePixelRatio h).

Lemma degenerate_min_pos : 0 < Rmin vw vh.
Proof. apply Rmin_pos; apply IZR_lt; assumption. Qed.

(** [density = 0]: an infinite tile edge and no row, no column. *)
Lemma canvasResize_density_zero :
  d = 0 ->
  size (canvasResize h s) = PInf
  /\ rows (canvasResize h s) = Fin 0 /\ cols (canvasResize h s) = Fin 0.
Proof.
  intros Hd. generalize degenerate_min_pos. intros Hm.
  assert (Hrho : 0 < rho) by exact Hratio_pos.
  destruct (canvasResize_canvas_inv h s c Hcanvas) as [c0 [E0 Ec]].
  unfold canvasResize. rewrite E0. cbn [size rows cols].
  fold (resized_canvas h c0). rewrite <- Ec.
  unfold Canvas.width_num, Canvas.height_num. cbn [min].
  rewrite Hdensity, Hd, (finite_real _ Hratio).
  fold vw vh rho. rewrite (div_zero_pos _ Hm).
  assert (Hinf : div PInf (Fin rho) = PInf).
  { unfold div. now rewrite (Rsign_Gt rho Hrho). }
  rewrite Hinf.
  change (div (Fin vh) PInf) with (Fin 0).
  change (div (Fin vw) PInf) with (Fin 0).
  rewrite div_Fin by lra. cbn [ceil].
  replace (0 / rho) with (IZR 0) by (unfold Rdiv; ring).
  rewrite ZceilZ. auto.
Qed.

(** [density < 0]: a negative tile edge, and rows and columns that are not
    positive. *)
Lemma canvasResize_density_negative :
  d < 0 ->
  exists (z : R) (nr nc : Z),
    size (canvasResize h s) = Fin z /\ z < 0
    /\ rows (canvasResize h s) = Fin (IZR nr) /\ (nr <= 0)%Z
    /\ cols (canvasResize h s) = Fin (IZR nc) /\ (nc <= 0)%Z.
Proof.
  intros Hd. generalize degenerate_min_pos. intros Hm.
  assert (Hrho : 0 < rho) by exact Hratio_pos.
  assert (Hvw : 0 < vw) by (apply IZR_lt; assumption).
  assert (Hvh : 0 < vh) by (apply IZR_lt; assumption).
  set (z := Rmin vw vh / d / rho).
  assert (Hz : z < 0).
  { unfold z. apply Rdiv_neg_pos; [| exact Hrho].
    now apply Rdiv_pos_neg. }
  assert (Hq : forall v : R, 0 < v -> (Zceil (v / z / rho) <= 0)%Z).
  { intros v Hv. apply le_IZR.
    destruct (Zceil_bound (v / z / rho)) as [Hlo _].
    assert (v / z / rho < 0).
    { apply Rdiv_neg_pos; [| exact Hrho]. now apply Rdiv_pos_neg. }
    assert (Hlt : IZR (Zceil (v / z / rho)) < IZR 1) by lra.
    apply lt_IZR in Hlt. apply IZR_le. lia. }
  exists z, (Zceil (vh / z / rho)), (Zceil (vw / z / rho)).
  destruct (canvasResize_canvas_inv h s c Hcanvas) as [c0 [E0 Ec]].
  unfold canvasResize. rewrite E0. cbn [size rows cols].
  fold (resized_canvas h c0). rewrite <- Ec.
  unfold Canvas.width_num, Canvas.height_num. cbn [min].
  rewrite Hdensity, (finite_real _ Hratio). fold vw vh rho.
  rewrite (div_Fin _ d) by lra. rewrite (div_Fin _ rho) by lra. fold z.
  rewrite !(div_Fin _ z) by lra. rewrite !(div_Fin _ rho) by lra.
  cbn [ceil]. repeat split; auto.
Qed.

(** In both cases the loops of [colorsInit] and [draw] have nothing to do. *)
Lemma degenerate_loop_counts :
  d <= 0 ->
  loop_count (cols (canvasResize h s)) = Some O
  /\ loop_count (rows (canvasResize h s)) = Some O.
Proof.
  intros [Hd | Hd].
  - destruct (canvasResize_density_negative Hd)
      as [z [nr [nc [_ [_ [Er [Hnr [Ec Hnc]]]]]]]].
    rewrite Er, Ec, !loop_count_IZR. split; f_equal; lia.
  - destruct (canvasResize_density_zero Hd) as [_ [Er Ec]].
    rewrite Er, Ec. change 0 with (IZR 0). rewrite loop_count_IZR. auto.
Qed.

(** The constructor goes through: it returns an object with an empty colour
    table, having consumed no random word and filled no rectangle. *)
Lemma degenerate_constructor (k : nat) :
  d <= 0 ->
  exists s' : t,
    constructor h k s = Done (s', k, [])
    /\ colors s' = []
    /\ size s' = size (canvasResize h s)
    /\ rows s' = rows (canvasResize h s)
    /\ cols s' = cols (canvasResize h s).
Proof.
  intros Hd. destruct (degenerate_loop_counts Hd) as [Hc Hr].
  destruct (constructor_returns h k s 0 0 Hc Hr)
    as [s' [rects [E [Ecol [K Hrects]]]]].
  generalize (kept_size _ _ K) (kept_rows _ _ K) (kept_cols _ _ K).
  intros Es Erows Ecols.
  exists s'. rewrite Nat.mul_0_l, Nat.add_0_r in E.
  assert (rects = []) as ->.
  { destruct rects as [| r rects]; [reflexivity | exfalso].
    destruct (Hrects r (or_introl eq_refl))
      as [c' [i [j [col [_ [[Hi _] _]]]]]].
    rewrite Ecols in Hi.
    destruct (cols (canvasResize h s)) as [x | | |];
      simpl in Hc, Hi; try contradiction; try discriminate.
    injection Hc as Hc. destruct (Zceil_bound x) as [_ Hx].
    assert (Hz : (Zceil x <= 0)%Z) by lia.
    apply IZR_le in Hz. generalize (pos_INR i). lra. }
  repeat split; trivial.
Qed.

End DegenerateDensity.

(** C3 (as the code has it).  Nothing validates the density.  For a finite
    density [d <= 0], on a canvas of positive size and a positive pixel ratio,
    the constructor raises no error: it returns an object with an empty colour
    table, having consumed no random word and drawn no tile.  The geometry is
    stored all the same: for [d = 0] the tile edge is [+Infinity] and rows and
    columns are [0]; for [d < 0] the tile edge is negative and rows and
    columns are integers that are not positive. *)
Theorem nonpositive_density_accepted
    (h : Host) (s : t) (c : Canvas.t) (d : R) (k : nat) :
  canvas (canvasResize h s) = Some c ->
  (0 < Canvas.width c)%Z -> (0 < Canvas.height c)%Z ->
  finite (devicePixelRatio h) -> 0 < real (devicePixelRatio h) ->
  density s = Fin d -> d <= 0 ->
  exists s' : t,
    constructor h k s = Done (s', k, [])
    /\ colors s' = []
    /\ (d = 0 -> size s' = PInf /\ rows s' = Fin 0 /\ cols s' = Fin 0)
    /\ (d < 0 ->
        exists (z : R) (nr nc : Z),
          size s' = Fin z /\ z < 0
          /\ rows s' = Fin (IZR nr) /\ (nr <= 0)%Z
          /\ cols s' = Fin (IZR nc) /\ (nc <= 0)%Z).
Proof.
  intros Hcanvas Hw Hh Hr Hrp Hd Hle.
  destruct (degenerate_constructor h s c d Hcanvas Hw Hh Hr Hrp Hd k Hle)
    as [s' [E [Ecol [Es [Erows Ecols]]]]].
  exists s'. rewrite Es, Erows, Ecols. repeat split; trivial.
  - now apply (canvasResize_density_zero h s c d).
  - now apply (canvasResize_density_zero h s c d).
  - now apply (canvasResize_density_zero h s c d).
  - now apply (canvasResize_density_negative h s c d).
Qed.

Lemma nonpositive_density_accepted_witness :
  exists s' : t,
    constructor window_800x600 7
      (with_density (fields page_canvas true) (Fin (-4)))
    = Done (s', 7%nat, [])
    /\ colors s' = []
    /\ (-4 = 0 -> size s' = PInf /\ rows s' = Fin 0 /\ cols s' = Fin 0)
    /\ (-4 < 0 ->
        exists (z : R) (nr nc : Z),
          size s' = Fin z /\ z < 0
          /\ rows s' = Fin (IZR nr) /\ (nr <= 0)%Z
          /\ cols s' = Fin (IZR nc) /\ (nc <= 0)%Z).
Proof.
  apply (nonpositive_density_accepted window_800x600
           (with_density (fields page_canvas true) (Fin (-4)))
           canvas_800x600 (-4) 7).
  - now apply (window_800x600_canvas _ page_canvas).
  - simpl. lia.
  - simpl. lia.
  - exact I.
  - simpl. lra.
  - reflexivity.
  - lra.
Defined.

(** The claim fails at [density = 0] on the 800 x 600 window: the constructor
    returns, and the geometry it produced has an infinite tile edge and zero
    rows and columns. *)
Lemma density_zero_not_rejected :
  exists s' : t,
    constructor window_800x600 0
      (with_density (fields page_canvas true) (Fin 0))
    = Done (s', 0%nat, [])
    /\ size s' = PInf /\ rows s' = Fin 0 /\ cols s' = Fin 0.
Proof.
  set (s := with_density (fields page_canvas true) (Fin 0)).
  assert (Hc : canvas (canvasResize window_800x600 s) = Some canvas_800x600)
    by now apply (window_800x600_canvas _ page_canvas).
  assert (Hw : (0 < Canvas.width canvas_800x600)%Z) by (simpl; lia).
  assert (Hh : (0 < Canvas.height canvas_800x600)%Z) by (simpl; lia).
  assert (Hp : 0 < real (devicePixelRatio window_800x600)) by (simpl; lra).
  destruct (degenerate_constructor window_800x600 s canvas_800x600 0
              Hc Hw Hh I Hp eq_refl 0 (Rle_refl 0))
    as [s' [E [_ [Es [Erows Ecols]]]]].
  destruct (canvasResize_density_zero window_800x600 s canvas_800x600 0
              Hc Hw Hh I Hp eq_refl eq_refl) as [Zs [Zr Zc]].
  exists s'. rewrite Es, Erows, Ecols. auto.
Qed.

(** ** C4: an edge threshold of one half or more *)

Lemma same_geometry (h : Host) (s1 s' : t) :
  Kept s1 s' -> Geometry h s1 -> Geometry h s'.
Proof.
  intros K [G1 G2 G3 G4 G5 G6].
  split; trivial;
    rewrite ?(kept_size _ _ K), ?(kept_distanceMax _ _ K); trivial.
Qed.

Lemma same_tuning (s1 s' : t) :
  Kept s1 s' -> Tuning s1 -> finite (speed s1) -> Tuning s'.
Proof.
  intros K [T1 T2 T3 T4] Hs.
  split;
    rewrite ?(kept_edge _ _ K), ?(kept_tightness _ _ K),
      ?(kept_ripple _ _ K); trivial.
  destruct (kept_time _ _ K) as [-> | ->]; trivial.
  rewrite (finite_real _ T4), (finite_real _ Hs). exact I.
Qed.

Lemma canvasResize_Tuning (h : Host) (s : t) :
  Tuning s -> finite (speed s) ->
  Tuning (canvasResize h s) /\ finite (speed (canvasResize h s)).
Proof.
  intros [T1 T2 T3 T4] Hs.
  destruct (canvasResize_tuning h s) as [Ee [Et [Er Esp]]].
  split; [split |]; rewrite ?Ee, ?Et, ?Er, ?Esp, ?canvasResize_time; trivial.
Qed.

Lemma band_width (s : t) (e : R) :
  edge s = Fin e -> (edge2 s - edge1 s)%js = Fin (2 * e).
Proof.
  intros E. unfold edge1, edge2. rewrite E. cbn [sub add neg].
  f_equal. lra.
Qed.

(** For an edge threshold of one half or more the quotient of [smoothStep]
    lies in [0, 1] by itself: the clamp returns it unchanged. *)
Lemma smoothStep_x_unclamped (s : t) (e w : R) :
  edge s = Fin e -> 0.5 <= e -> -1 <= w <= 1 ->
  let wn := waveNormalized_of (Fin w) in
  Utils.smoothStep_x wn (edge1 s) (edge2 s)
  = ((wn - edge1 s) / (edge2 s - edge1 s))%js.
Proof.
  intros E He Hw. cbv zeta. unfold waveNormalized_of, edge1, edge2.
  rewrite E. cbn [add sub neg]. rewrite (div_Fin _ 2) by lra.
  cbn [add sub neg].
  change (0.5 + e + - (0.5 + - e)) with ((0.5 + e) - (0.5 - e)).
  change ((w + 1) / 2 + - (0.5 + - e)) with ((w + 1) / 2 - (0.5 - e)).
  rewrite smoothStep_x_Fin by lra. rewrite div_Fin by lra. f_equal.
  apply Rclamp01_id. split.
  - apply Rmult_le_pos; [lra |]. left. apply Rinv_0_lt_compat. lra.
  - apply Rmult_le_reg_r with (0.5 + e - (0.5 - e)); [lra |].
    unfold Rdiv. rewrite Rmult_assoc, Rinv_l by lra. lra.
Qed.

Section EdgeAboveHalf.

Variable h : Host.
Variable s : t.
Variable c : Canvas.t.
Variable e : R.

Hypothesis Hcanvas : canvas (canvasResize h s) = Some c.
Hypothesis Hwidth : (0 < Canvas.width c)%Z.
Hypothesis Hheight : (0 < Canvas.height c)%Z.
Hypothesis Hratio : finite (devicePixelRatio h).
Hypothesis Hratio_pos : 0 < real (devicePixelRatio h).
Hypothesis Hdensity : finite (density s).
Hypothesis Hdensity_pos : 0 < real (density s).
Hypothesis Htuning : Tuning s.
Hypothesis Hspeed : finite (speed s).
Hypothesis Hedge : edge s = Fin e.
Hypothesis Hnonzero : e <> 0.

(** On a valid session the constructor returns whatever the (non-zero) edge
    threshold is, and every rectangle of the first frame is a square whose
    side lies between [size * 0.2] and [size * 0.2 + size * 0.8]. *)
Lemma constructor_first_frame (k : nat) :
  exists (s' : t) (n : nat) (rects : list Rect),
    constructor h k s = Done (s', n, rects)
    /\ Geometry h s' /\ Tuning s' /\ edge s' = Fin e
    /\ (forall r : Rect, In r rects ->
          exists w lo hi : R,
            rectW r = Fin w /\ rectH r = Fin w
            /\ (size s' * Fin 0.2)%js = Fin lo
            /\ (size s' * Fin 0.2 + size s' * Fin 0.8)%js = Fin hi
            /\ lo <= w <= hi).
Proof.
  generalize (canvasResize_geometry h s c Hcanvas Hwidth Hheight Hratio
                Hratio_pos Hdensity Hdensity_pos). intros G1.
  destruct (canvasResize_Tuning h s Htuning Hspeed) as [T1 S1].
  generalize (canvasResize_rows h s c Hcanvas Hwidth Hheight Hratio
                Hratio_pos Hdensity Hdensity_pos).
  generalize (canvasResize_cols h s c Hcanvas Hwidth Hheight Hratio
                Hratio_pos Hdensity Hdensity_pos).
  intros Ec Er.
  destruct (constructor_returns h k s _ _
              (eq_trans (f_equal loop_count Ec) (loop_count_IZR _))
              (eq_trans (f_equal loop_count Er) (loop_count_IZR _)))
    as [s' [rects [E [_ [Hsame Hrects]]]]].
  generalize (same_geometry h _ s' Hsame G1) (same_tuning _ s' Hsame T1 S1).
  intros G' T'.
  assert (Ee : edge s' = Fin e).
  { rewrite (kept_edge _ _ Hsame).
    destruct (canvasResize_tuning h s) as [Ee1 _]. now rewrite Ee1. }
  exists s'. eexists. exists rects. split; [exact E |].
  split; [exact G' | split; [exact T' | split; [exact Ee |]]].
  intros r Hr. destruct (Hrects r Hr) as [c' [i [j [col [_ [_ ->]]]]]].
  destruct (tileSize_between h s' c' i j G' T')
    as [w [lo [hi [Ew [Elo [Ehi [_ Hb]]]]]]].
  { rewrite Ee. exact Hnonzero. }
  exists w, lo, hi. cbn [tile rectW rectH]. auto.
Qed.

End EdgeAboveHalf.




(** ** C9: the frame of [canvasResize] *)

(** C9.  [canvasResize] leaves the time, the colour table, the theme flag and
    the configuration fields (density, edge, ripple, speed, tightness,
    palette) as they were; what it may change are the canvas dimensions,
    [size], [rows], [cols] and [distanceMax]. *)
Theorem canvasResize_frame (h : Host) (s : t) :
  time (canvasResize h s) = time s
  /\ colors (canvasResize h s) = colors s
  /\ isDark (canvasResize h s) = isDark s
  /\ density (canvasResize h s) = density s
  /\ edge (canvasResize h s) = edge s
  /\ ripple (canvasResize h s) = ripple s
  /\ speed (canvasResize h s) = speed s
  /\ tightness (canvasResize h s) = tightness s
  /\ palette (canvasResize h s) = palette s.
Proof.
  unfold canvasResize. destruct (canvas s); cbn; repeat split; reflexivity.
Qed.

(** ** C2: the colour table across resizes *)

Lemma resizes_colors (hs : list Host) (s : t) :
  colors (resizes hs s) = colors s.
Proof.
  unfold resizes. revert s.
  induction hs as [| h hs IH]; intros s; [reflexivity |].
  cbn [fold_left]. rewrite IH. apply canvasResize_colors.
Qed.

Lemma resizes_palette (hs : list Host) (s : t) :
  palette (resizes hs s) = palette s.
Proof.
  unfold resizes. revert s.
  induction hs as [| h hs IH]; intros s; [reflexivity |].
  cbn [fold_left]. rewrite IH. apply canvasResize_palette.
Qed.

(** On a square canvas the grid has as many rows and columns as the density
    says. *)
Lemma square_grid (h : Host) (s : t) (c : Canvas.t) (d : Z) :
  canvas (canvasResize h s) = Some c ->
  (0 < Canvas.width c)%Z -> Canvas.height c = Canvas.width c ->
  finite (devicePixelRatio h) -> 0 < real (devicePixelRatio h) ->
  density s = Fin (IZR d) -> (0 < d)%Z ->
  size (canvasResize h s)
  = Fin (IZR (Canvas.width c) / IZR d / real (devicePixelRatio h))
  /\ rows (canvasResize h s) = Fin (IZR d)
  /\ cols (canvasResize h s) = Fin (IZR d).
Proof.
  intros Hc Hw Hsq Hr Hrp Hd Hdp.
  assert (Hh : (0 < Canvas.height c)%Z) by lia.
  assert (Hdf : finite (density s)) by (rewrite Hd; exact I).
  assert (Hdr : 0 < real (density s)) by (rewrite Hd; now apply IZR_lt).
  rewrite (canvasResize_size h s c Hc Hr Hrp Hdf Hdr).
  rewrite (canvasResize_rows h s c Hc Hw Hh Hr Hrp Hdf Hdr).
  rewrite (canvasResize_cols h s c Hc Hw Hh Hr Hrp Hdf Hdr).
  unfold Spec.computeGeometry.
  cbn [Spec.tileEdge Spec.gridRows Spec.gridCols].
  rewrite Hsq, Hd in *. cbn [real] in *.
  set (n := IZR (Canvas.width c)). set (rho := real (devicePixelRatio h)) in *.
  assert (Hn : 0 < n) by now apply IZR_lt.
  rewrite Rmin_left by lra.
  replace (n / (n / IZR d / rho) / rho) with (IZR d) by (field; lra).
  rewrite ZceilZ. auto.
Qed.

Lemma window_100x100_canvas (s : t) (c0 : Canvas.t) :
  canvas s = Some c0 ->
  canvas (canvasResize window_100x100 s) = Some canvas_100x100.
Proof.
  intros E. rewrite (canvasResize_canvas _ _ c0 E).
  unfold resized_canvas, Canvas.set_height, Canvas.set_width, canvas_100x100.
  cbn [Canvas.width Canvas.height window_100x100 innerWidth innerHeight
       devicePixelRatio mul].
  rewrite (reflect_ulong_IZR 300 100) by (lra || lia).
  rewrite (reflect_ulong_IZR 150 100) by (lra || lia).
  reflexivity.
Qed.

Lemma window_100x100_grid (s : t) (c0 : Canvas.t) (d : Z) :
  canvas s = Some c0 -> density s = Fin (IZR d) -> (0 < d)%Z ->
  canvas (canvasResize window_100x100 s) = Some canvas_100x100
  /\ rows (canvasResize window_100x100 s) = Fin (IZR d)
  /\ cols (canvasResize window_100x100 s) = Fin (IZR d).
Proof.
  intros Ec Ed Hd.
  generalize (window_100x100_canvas s c0 Ec). intros Hc.
  split; [exact Hc |].
  apply (square_grid window_100x100 s canvas_100x100 d Hc); simpl;
    trivial; (lia || lra).
Qed.

(** The entry a random word selects, from the integer part of
    [word / 2^32 * palette.length]. *)
Lemma palette_index_eval (p : list string) (raw : Z) (n : nat) :
  INR n <= IZR (raw mod 2 ^ 32) / 2 ^ 32 * INR (length p) < INR n + 1 ->
  palette_index p raw = of_nat n.
Proof.
  intros Hn. unfold palette_index, Utils.random.
  rewrite div_Fin by (apply pow_nonzero; lra).
  cbn [of_nat mul floor]. unfold of_nat. f_equal.
  rewrite (INR_IZR_INZ n) in *. f_equal. now apply Zfloor_eq.
Qed.

(** ** The tile at the centre of the field *)

Lemma Ratan2_origin : Ratan2 0 0 = 0.
Proof. unfold Ratan2. now rewrite (Rsign_Eq 0). Qed.

Lemma with_density_geometry (h : Host) (s : t) (v : num) :
  Geometry h s -> Geometry h (with_density s v).
Proof. intros [G1 G2 G3 G4 G5 G6]. split; assumption. Qed.

Lemma single_tile_size : size single_tile = Fin 100.
Proof.
  set (s1 := with_density (fields page_canvas true) (Fin 1)).
  destruct (window_100x100_grid s1 page_canvas 1 eq_refl eq_refl)
    as [Hc _]; [lia |].
  destruct (square_grid window_100x100 s1 canvas_100x100 1 Hc)
    as [Hs _]; simpl; trivial; try (lia || lra).
  transitivity (size (canvasResize window_100x100 s1)); [reflexivity |].
  rewrite Hs. f_equal. simpl. lra.
Qed.

Lemma single_tile_geometry : Geometry window_100x100 single_tile.
Proof.
  apply with_density_geometry.
  apply (canvasResize_geometry _ _ canvas_100x100
           (window_100x100_canvas
              (with_density (fields page_canvas true) (Fin 1))
              page_canvas eq_refl)); simpl;
    (lia || lra || exact I).
Qed.

Lemma single_tile_centered :
  angleX window_100x100 single_tile canvas_100x100 0 = Fin 0
  /\ angleY window_100x100 single_tile canvas_100x100 0 = Fin 0.
Proof.
  rewrite (angleX_Fin _ _ _ single_tile_geometry).
  rewrite (angleY_Fin _ _ _ single_tile_geometry).
  unfold RangleX, RangleY, RcenterX, RcenterY.
  rewrite single_tile_size. simpl. split; f_equal; lra.
Qed.

(** ** C7: one frame later *)

(** *** Frames after frames *)

Lemma animate_state (h : Host) (s : t) (c : Canvas.t) :
  canvas s = Some c -> ctx s = true ->
  fst (animate h s) = set_time s (time s + speed s).
Proof. intros Ec Ex. unfold animate. now rewrite Ec, Ex. Qed.

(** [n + 1] frames are [n] frames and one more. *)
Lemma frames_snoc (h : Host) (n : nat) :
  forall s : t, frames h (Datatypes.S n) s = fst (animate h (frames h n s)).
Proof.
  induction n as [| n IH]; intros s; [reflexivity |].
  change (frames h (Datatypes.S (Datatypes.S n)) s)
    with (frames h (Datatypes.S n) (fst (animate h s))).
  rewrite IH. reflexivity.
Qed.

(** Frames change the time only. *)
Lemma frames_keep (h : Host) (n : nat) :
  forall (s : t) (c : Canvas.t),
    canvas s = Some c -> ctx s = true ->
    canvas (frames h n s) = Some c
    /\ ctx (frames h n s) = true
    /\ speed (frames h n s) = speed s
    /\ colors (frames h n s) = colors s
    /\ size (frames h n s) = size s
    /\ rows (frames h n s) = rows s
    /\ cols (frames h n s) = cols s
    /\ distanceMax (frames h n s) = distanceMax s.
Proof.
  induction n as [| n IH]; intros s c Ec Ex.
  - cbn [frames]. repeat split; trivial.
  - cbn [frames]. rewrite (animate_state h s c Ec Ex).
    exact (IH (set_time s (time s + speed s)) c Ec Ex).
Qed.


Lemma set_time_geometry (h : Host) (s : t) (v : num) :
  Geometry h s -> Geometry h (set_time s v).
Proof. intros [G1 G2 G3 G4 G5 G6]. split; assumption. Qed.

Lemma set_time_tuning (s : t) (v : num) :
  Tuning s -> finite v -> Tuning (set_time s v).
Proof. intros [T1 T2 T3 T4] Hv. split; assumption. Qed.

Lemma next_frame_tuning (s : t) :
  Tuning s -> finite (speed s) -> Tuning (set_time s (time s + speed s)).
Proof.
  intros T Hs. apply set_time_tuning; [exact T |].
  rewrite (finite_real _ (tun_time _ T)), (finite_real _ Hs). exact I.
Qed.

(** Below the band the render size is the floor of [0.2 * size]. *)
Lemma RtileSize_of_low (s : t) (w : R) :
  0 < real (edge s) -> (w + 1) / 2 <= 0.5 - real (edge s) ->
  RtileSize_of s w = 0.2 * real (size s).
Proof.
  intros He Hw. unfold RtileSize_of, Rsharp_x.
  rewrite Rclamp01_low.
  - unfold Rsmooth. ring.
  - set (e := real (edge s)) in *.
    assert (Hden : 0 < / (0.5 + e - (0.5 - e)))
      by (apply Rinv_0_lt_compat; lra).
    unfold Rdiv. nra.
Qed.

(** The phase of a tile that sits on the centre of the field. *)
Lemma center_phase (h : Host) (s : t) (c : Canvas.t) (i j : nat) :
  Geometry h s -> Tuning s ->
  angleX h s c i = Fin 0 -> angleY h s c j = Fin 0 ->
  Rphase s (RdistNormalized h s c i j) (Rangle h s c i j) = - real (time s)
  /\ wave h s c i j = Fin (Rtrigo_def.sin (- real (time s))).
Proof.
  intros geo tun Hx Hy.
  rewrite (angleX_Fin h s c geo) in Hx. rewrite (angleY_Fin h s c geo) in Hy.
  injection Hx as Hx. injection Hy as Hy.
  assert (E : Rphase s (RdistNormalized h s c i j) (Rangle h s c i j)
              = - real (time s)).
  { unfold RdistNormalized, Rdist, Rangle. rewrite Hx, Hy, Ratan2_origin.
    replace (0 ^ 2 + 0 ^ 2) with 0 by ring. rewrite sqrt_0.
    unfold Rphase, Rdiv. ring. }
  split; [exact E |].
  rewrite (wave_Fin h s c geo tun). unfold Rwave. now rewrite E.
Qed.

(** At and above the band the render size is that of a saturated tile. *)
Lemma RtileSize_of_high (s : t) (w : R) :
  0 < real (edge s) -> 0.5 + real (edge s) <= (w + 1) / 2 ->
  RtileSize_of s w = real (size s) * 0.2 + real (size s) * 0.8.
Proof.
  intros He Hw. unfold RtileSize_of, Rsharp_x.
  rewrite Rclamp01_high.
  - unfold Rsmooth. lra.
  - set (e := real (edge s)) in *.
    apply Rmult_le_reg_r with (0.5 + e - (0.5 - e)); [lra |].
    unfold Rdiv. rewrite Rmult_assoc, Rinv_l by lra. lra.
Qed.

Lemma tileSize_clamped_low (h : Host) (s : t) (c : Canvas.t) (i j : nat) :
  Geometry h s -> Tuning s -> 0 < real (edge s) ->
  at_most (waveNormalized_of (wave h s c i j)) (edge1 s) ->
  tileSize h s c i j = (size s * Fin 0.2)%js.
Proof.
  intros geo tun He Hlo.
  rewrite (wave_Fin h s c geo tun) in Hlo.
  rewrite (tileSize_Fin h s c geo tun) by lra.
  unfold waveNormalized_of, edge1 in Hlo.
  rewrite (finite_real _ (tun_edge _ tun)) in Hlo.
  cbn [JsNum.add JsNum.sub JsNum.neg] in Hlo.
  rewrite div_Fin in Hlo by lra. cbn [at_most] in Hlo.
  rewrite (finite_real _ (geo_size _ _ geo)). cbn [JsNum.mul real]. f_equal.
  rewrite RtileSize_of_low; [lra | exact He | lra].
Qed.

Lemma tileSize_clamped_high (h : Host) (s : t) (c : Canvas.t) (i j : nat) :
  Geometry h s -> Tuning s -> 0 < real (edge s) ->
  at_most (edge2 s) (waveNormalized_of (wave h s c i j)) ->
  tileSize h s c i j = (size s * Fin 0.2 + size s * Fin 0.8)%js.
Proof.
  intros geo tun He Hhi.
  rewrite (wave_Fin h s c geo tun) in Hhi.
  rewrite (tileSize_Fin h s c geo tun) by lra.
  unfold waveNormalized_of, edge2 in Hhi.
  rewrite (finite_real _ (tun_edge _ tun)) in Hhi.
  cbn [JsNum.add] in Hhi.
  rewrite div_Fin in Hhi by lra. cbn [at_most] in Hhi.
  rewrite (finite_real _ (geo_size _ _ geo)).
  cbn [JsNum.mul JsNum.add real]. f_equal.
  rewrite RtileSize_of_high; [lra | exact He | lra].
Qed.



Lemma single_tile_tuning : Tuning single_tile.
Proof. split; exact I. Qed.

Lemma single_tile_in_grid : in_grid single_tile 0 0.
Proof.
  set (s1 := with_density (fields page_canvas true) (Fin 1)).
  destruct (window_100x100_grid s1 page_canvas 1 eq_refl eq_refl)
    as [_ [Hr Hc]]; [lia |].
  unfold in_grid.
  change (cols single_tile) with (cols (canvasResize window_100x100 s1)).
  change (rows single_tile) with (rows (canvasResize window_100x100 s1)).
  rewrite Hr, Hc. simpl. lra.
Qed.

(** The wave of the single tile, whose centre is the centre of the field, at
    any finite time. *)
Lemma single_tile_wave (v : R) :
  wave window_100x100 (set_time single_tile (Fin v)) canvas_100x100 0 0
  = Fin (Rtrigo_def.sin (- v)).
Proof.
  apply (center_phase window_100x100 (set_time single_tile (Fin v))
           canvas_100x100 0 0).
  - apply set_time_geometry, single_tile_geometry.
  - apply set_time_tuning; [exact single_tile_tuning | exact I].
  - exact (proj1 single_tile_centered).
  - exact (proj2 single_tile_centered).
Qed.

Lemma sin_above_half (x : R) : 0.7 <= x <= 1.5 -> 1 / 2 < Rtrigo_def.sin x.
Proof.
  intros Hx. rewrite <- sin_PI6.
  generalize PI2_3_2 PI_4. intros H1 H2.
  apply sin_increasing_1; lra.
Qed.

(** The render size of the single tile at any finite time. *)
Lemma single_tile_size_at (v : R) :
  tileSize window_100x100 (set_time single_tile (Fin v)) canvas_100x100 0 0
  = Fin (RtileSize_of single_tile (Rtrigo_def.sin (- v))).
Proof.
  set (s := set_time single_tile (Fin v)).
  assert (geo : Geometry window_100x100 s)
    by apply set_time_geometry, single_tile_geometry.
  assert (tun : Tuning s)
    by (apply set_time_tuning; [exact single_tile_tuning | exact I]).
  generalize (single_tile_wave v). fold s.
  rewrite (wave_Fin _ s canvas_100x100 geo tun). intros [= E].
  rewrite (tileSize_Fin _ s canvas_100x100 geo tun) by (simpl; lra).
  rewrite E. reflexivity.
Qed.

(** On the lone tile of the 100 x 100 window, whose phase is [- time], with
    the default speed 0.03: at [time = 0.99] the sine is not at a stationary
    point (its derivative, the cosine of the phase, is not zero), yet the
    render size is [20] at [time] and at [time + speed]: the normalised wave
    is below the band at both times. *)
Lemma lone_tile_clamped :
  let h := window_100x100 in
  let c := canvas_100x100 in
  let s := set_time lone_tile (Fin 0.99) in
  in_grid s 0 0 /\ speed s = Fin 0.03
  /\ cos (Rphase s (RdistNormalized h s c 0 0) (Rangle h s c 0 0)) <> 0
  /\ tileSize h s c 0 0 = Fin 20
  /\ tileSize h (set_time s (time s + speed s)) c 0 0 = Fin 20.
Proof.
  generalize PI2_3_2 PI_4. intros Hpi1 Hpi2.
  assert (Hz : real (size single_tile) = 100)
    by now rewrite single_tile_size.
  assert (Hlow : forall v : R, 0.7 <= v <= 1.5 ->
            RtileSize_of single_tile (Rtrigo_def.sin (- v)) = 20).
  { intros v Hv. rewrite RtileSize_of_low.
    - rewrite Hz. lra.
    - simpl. lra.
    - rewrite sin_neg. generalize (sin_above_half v Hv). simpl. lra. }
  cbv zeta.
  split; [exact single_tile_in_grid | split; [reflexivity |]].
  split; [| split].
  - destruct (center_phase window_100x100
                (set_time single_tile (Fin 0.99)) canvas_100x100 0 0)
      as [E _].
    + apply set_time_geometry, single_tile_geometry.
    + apply set_time_tuning; [exact single_tile_tuning | exact I].
    + exact (proj1 single_tile_centered).
    + exact (proj2 single_tile_centered).
    + change (Rphase (set_time lone_tile (Fin 0.99))
                (RdistNormalized window_100x100
                   (set_time lone_tile (Fin 0.99)) canvas_100x100 0 0)
                (Rangle window_100x100 (set_time lone_tile (Fin 0.99))
                   canvas_100x100 0 0))
        with (Rphase (set_time single_tile (Fin 0.99))
                (RdistNormalized window_100x100
                   (set_time single_tile (Fin 0.99)) canvas_100x100 0 0)
                (Rangle window_100x100 (set_time single_tile (Fin 0.99))
                   canvas_100x100 0 0)).
      rewrite E. cbn [set_time time real]. rewrite cos_neg.
      apply Rgt_not_eq. apply cos_gt_0; lra.
  - change (tileSize window_100x100 (set_time lone_tile (Fin 0.99))
              canvas_100x100 0 0)
      with (tileSize window_100x100 (set_time single_tile (Fin 0.99))
              canvas_100x100 0 0).
    rewrite single_tile_size_at. f_equal. apply Hlow. lra.
  - change (tileSize window_100x100
              (set_time (set_time lone_tile (Fin 0.99))
                 (time (set_time lone_tile (Fin 0.99))
                  + speed (set_time lone_tile (Fin 0.99))))
              canvas_100x100 0 0)
      with (tileSize window_100x100
              (set_time single_tile (Fin (0.99 + 0.03))) canvas_100x100 0 0).
    rewrite single_tile_size_at. f_equal. apply Hlow. lra.
Qed.

(** ** C2: growing past the table *)

(** When the grid has a column the colour table lacks, and at least one row,
    [draw] throws: [this.colors[i]] is undefined there. *)
Lemma draw_columns_throws (h : Host) (s : t) (c : Canvas.t) (nr n : nat) :
  forall start : nat,
    (exists i : nat, (start <= i < start + n)%nat
                     /\ arr_get (colors s) i = None) ->
    draw_columns h s c (Some (Datatypes.S nr)) start n = Throws TypeError.
Proof.
  induction n as [| n IH]; intros start [i [Hi Ei]]; [lia |].
  cbn [draw_columns]. unfold draw_column at 1.
  destruct (arr_get (colors s) start) as [col |] eqn:Es; [| reflexivity].
  cbn [bind]. rewrite IH; [reflexivity |].
  exists i. split; [| exact Ei].
  destruct (Nat.eq_dec i start) as [-> | Hne]; [congruence | lia].
Qed.

Lemma draw_throws (h : Host) (s : t) (c : Canvas.t) (nc nr i : nat) :
  canvas s = Some c -> ctx s = true ->
  loop_count (cols s) = Some nc ->
  loop_count (rows s) = Some (Datatypes.S nr) ->
  (i < nc)%nat -> arr_get (colors s) i = None ->
  draw h s = Throws TypeError.
Proof.
  intros Ec Ex Hc Hr Hi Ei. unfold draw. rewrite Ec, Ex, Hc, Hr.
  apply draw_columns_throws. exists i. split; [lia | exact Ei].
Qed.

Lemma window_150x100_canvas (s : t) (c0 : Canvas.t) :
  canvas s = Some c0 ->
  canvas (canvasResize window_150x100 s) = Some canvas_150x100.
Proof.
  intros E. rewrite (canvasResize_canvas _ _ c0 E).
  unfold resized_canvas, Canvas.set_height, Canvas.set_width, canvas_150x100.
  cbn [Canvas.width Canvas.height window_150x100 innerWidth innerHeight
       devicePixelRatio mul].
  rewrite (reflect_ulong_IZR 300 150) by (lra || lia).
  rewrite (reflect_ulong_IZR 150 100) by (lra || lia).
  reflexivity.
Qed.

(** C2 (the defect of the code).  The default object is built on the
    100 x 100 window, a grid of 32 x 32 tiles with a colour table of 32
    columns, and the window is then widened to 150 x 100.  [canvasResize]
    raises [cols] to 48 and leaves the table alone: no newly exposed cell
    gets a colour, the columns 32 to 47 do not exist, and the next frame and
    every frame after it throw a [TypeError] in [draw]. *)
Theorem resize_growth_throws :
  exists (s0 : t) (rects : list Rect),
    constructor window_100x100 0 (fields page_canvas true)
    = Done (s0, 1024%nat, rects)
    /\ length (colors s0) = 32%nat
    /\ let s1 := canvasResize window_150x100 s0 in
       cols s1 = Fin 48 /\ rows s1 = Fin 32
       /\ colors s1 = colors s0
       /\ (forall i : nat, (32 <= i)%nat -> arr_get (colors s1) i = None)
       /\ forall n : nat,
            snd (animate window_150x100 (frames window_150x100 n s1))
            = Throws TypeError.
Proof.
  set (s := fields page_canvas true).
  destruct (window_100x100_grid s page_canvas 32 eq_refl eq_refl)
    as [Hc [Hrows Hcols]]; [lia |].
  destruct (constructor_returns window_100x100 0 s 32 32)
    as [s0 [rects [E [Ecol [K _]]]]].
  { rewrite Hcols. apply loop_count_IZR. }
  { rewrite Hrows. apply loop_count_IZR. }
  exists s0, rects. split; [exact E |].
  split; [rewrite Ecol; unfold table_values;
          now rewrite length_map, length_seq |].
  cbv zeta.
  assert (Ecanvas : canvas s0 = Some canvas_100x100)
    by (rewrite (kept_canvas _ _ K); exact Hc).
  assert (Ectx : ctx s0 = true)
    by (rewrite (kept_ctx _ _ K); apply canvasResize_ctx).
  assert (Ed : density s0 = Fin (IZR 32)).
  { rewrite (kept_density _ _ K). apply canvasResize_density. }
  assert (Hc1 : canvas (canvasResize window_150x100 s0) = Some canvas_150x100)
    by now apply (window_150x100_canvas _ canvas_100x100).
  set (s1 := canvasResize window_150x100 s0) in *.
  assert (Hw : (0 < Canvas.width canvas_150x100)%Z) by (simpl; lia).
  assert (Hh : (0 < Canvas.height canvas_150x100)%Z) by (simpl; lia).
  assert (Hp : 0 < real (devicePixelRatio window_150x100)) by (simpl; lra).
  assert (Hdf : finite (density s0)) by (rewrite Ed; exact I).
  assert (Hdp : 0 < real (density s0)) by (rewrite Ed; simpl; lra).
  generalize
    (canvasResize_rows window_150x100 s0 canvas_150x100 Hc1 Hw Hh I Hp Hdf Hdp)
    (canvasResize_cols window_150x100 s0 canvas_150x100 Hc1 Hw Hh I Hp Hdf Hdp).
  fold s1. rewrite Ed. cbn [real devicePixelRatio window_150x100].
  unfold Spec.computeGeometry. cbn [Spec.gridRows Spec.gridCols Spec.tileEdge].
  cbn [Canvas.width Canvas.height canvas_150x100].
  rewrite Rmin_right by lra.
  replace (100 / (100 / 32 / 1) / 1) with (IZR 32) by lra.
  replace (150 / (100 / 32 / 1) / 1) with (IZR 48) by lra.
  rewrite !ZceilZ. intros Hr1 Hc1'.
  assert (Ecol1 : colors s1 = colors s0)
    by (unfold s1; apply canvasResize_colors).
  assert (Hmiss : forall i : nat, (32 <= i)%nat ->
            arr_get (colors s1) i = None).
  { intros i Hi. rewrite Ecol1, Ecol. now apply table_values_outside. }
  assert (Ectx1 : ctx s1 = true)
    by (unfold s1; rewrite canvasResize_ctx; exact Ectx).
  split; [exact Hc1' | split; [exact Hr1 | split; [exact Ecol1 |]]].
  split; [exact Hmiss |].
  intros n.
  destruct (frames_keep window_150x100 n s1 canvas_150x100 Hc1 Ectx1)
    as [Fc [Fx [_ [Fcol [_ [Fr [Fcs _]]]]]]].
  set (sn := frames window_150x100 n s1) in *.
  unfold animate. rewrite Fc, Fx. cbn [snd].
  apply (draw_throws window_150x100 _ canvas_150x100 48 31 32).
  - exact Fc.
  - exact Fx.
  - cbn [set_time cols]. rewrite Fcs, Hc1'. apply (loop_count_IZR 48).
  - cbn [set_time rows]. rewrite Fr, Hr1. apply (loop_count_IZR 32).
  - lia.
  - cbn [set_time colors]. rewrite Fcol. apply Hmiss. lia.
Qed.

(** * Further properties of the code *)

(** ** [Utils.smoothStep] *)

Lemma smoothStep_Rstep (x e1 e2 : R) :
  e1 <> e2 ->
  Utils.smoothStep (Fin x) (Fin e1) (Fin e2) = Fin (Rstep x e1 e2).
Proof. intros H. unfold Rstep. apply smoothStep_Fin. lra. Qed.

(** X1.  For thresholds [edge1 < edge2], [Utils.smoothStep] returns a finite
    value between 0 and 1; as its documentation says, values of [x] at or
    below [edge1] are mapped to 0 and values at or above [edge2] to 1. *)
Theorem smoothStep_thresholds (x e1 e2 : R) :
  e1 < e2 ->
  exists v : R,
    Utils.smoothStep (Fin x) (Fin e1) (Fin e2) = Fin v
    /\ 0 <= v <= 1 /\ (x <= e1 -> v = 0) /\ (e2 <= x -> v = 1).
Proof.
  intros He. exists (Rstep x e1 e2).
  split; [apply smoothStep_Rstep; lra |].
  assert (Hden : 0 < / (e2 - e1)) by (apply Rinv_0_lt_compat; lra).
  unfold Rstep. split; [apply Rsmooth_bounds, Rclamp01_bounds | split].
  - intros Hx. rewrite Rclamp01_low; [unfold Rsmooth; ring |].
    unfold Rdiv. nra.
  - intros Hx. rewrite Rclamp01_high; [unfold Rsmooth; ring |].
    apply Rmult_le_reg_r with (e2 - e1); [lra |].
    unfold Rdiv. rewrite Rmult_assoc, Rinv_l by lra. lra.
Qed.

Lemma smoothStep_thresholds_witness :
  exists v : R,
    Utils.smoothStep (Fin 0.3) (Fin 0.4) (Fin 0.6) = Fin v
    /\ 0 <= v <= 1 /\ (0.3 <= 0.4 -> v = 0) /\ (0.6 <= 0.3 -> v = 1).
Proof. apply (smoothStep_thresholds 0.3 0.4 0.6). lra. Defined.

Lemma smoothStep_step (x e : R) :
  Utils.smoothStep (Fin x) (Fin e) (Fin e)
  = match Rsign (x - e) with
    | Lt => Fin 0
    | Eq => NaN
    | Gt => Fin 1
    end.
Proof.
  unfold Utils.smoothStep, Utils.smoothStep_x. cbn [JsNum.sub JsNum.neg JsNum.add].
  change (x + - e) with (x - e). unfold div.
  rewrite (Rsign_Eq (e + - e)) by lra.
  destruct (Rsign (x - e)).
  - reflexivity.
  - cbn [JsNum.min JsNum.max JsNum.mul JsNum.sub JsNum.neg JsNum.add].
    f_equal. unfold Rmax. destruct (Rle_dec 0 0); lra.
  - cbn [JsNum.min JsNum.max JsNum.mul JsNum.sub JsNum.neg JsNum.add].
    f_equal. unfold Rmax, Rmin.
    destruct (Rle_dec 1 1); destruct (Rle_dec 0 1); lra.
Qed.

(** X3.  With equal thresholds [Utils.smoothStep] is a step: 0 below the
    threshold, 1 above it, and NaN at the threshold itself, where the
    quotient is [0 / 0] and [Math.min] and [Math.max] pass the NaN on. *)
Theorem smoothStep_equal_thresholds (x e : R) :
  Utils.smoothStep (Fin x) (Fin e) (Fin e)
  = match Rsign (x - e) with
    | Lt => Fin 0
    | Eq => NaN
    | Gt => Fin 1
    end.
Proof. exact (smoothStep_step x e). Qed.

(** ** [draw]: what is filled, in which order, in which colour *)

Lemma nth_error_map_seq {A : Type} (f : nat -> A) (n j : nat) :
  (j < n)%nat -> nth_error (map f (seq 0 n)) j = Some (f j).
Proof.
  intros Hj. rewrite nth_error_map, nth_error_seq.
  destruct (Nat.ltb_spec j n); [reflexivity | lia].
Qed.

Lemma draw_columns_exact (h : Host) (s : t) (c : Canvas.t) (nr n : nat) :
  forall start : nat,
    (forall i : nat, (start <= i < start + n)%nat ->
       arr_get (colors s) i <> None) ->
    exists rects : list Rect,
      draw_columns h s c (Some nr) start n = Done rects
      /\ length rects = (n * nr)%nat
      /\ forall i j : nat, (start <= i < start + n)%nat -> (j < nr)%nat ->
           exists col : array string,
             arr_get (colors s) i = Some col
             /\ nth_error rects ((i - start) * nr + j)
                = Some (tile h s c col i j).
Proof.
  induction n as [| n IH]; intros start Hcols.
  - exists []. split; [reflexivity | split; [reflexivity |]]. intros; lia.
  - destruct (IH (Datatypes.S start)) as [rs [Ers [Hlen Hrs]]].
    { intros i Hi. apply Hcols. lia. }
    destruct (arr_get (colors s) start) as [col |] eqn:Ecol.
    2: { exfalso. apply (Hcols start); [lia | exact Ecol]. }
    exists (map (tile h s c col start) (seq 0 nr) ++ rs).
    split; [| split].
    + cbn [draw_columns]. unfold draw_column at 1. rewrite Ecol, Ers.
      reflexivity.
    + rewrite length_app, length_map, length_seq, Hlen. lia.
    + intros i j Hi Hj.
      destruct (Nat.eq_dec i start) as [-> | Hne].
      * exists col. split; [exact Ecol |].
        rewrite Nat.sub_diag, Nat.mul_0_l, Nat.add_0_l.
        rewrite nth_error_app1 by (rewrite length_map, length_seq; exact Hj).
        now apply nth_error_map_seq.
      * destruct (Hrs i j) as [col' [Ei En]]; [lia | exact Hj |].
        exists col'. split; [exact Ei |].
        rewrite nth_error_app2
          by (rewrite length_map, length_seq; nia).
        rewrite length_map, length_seq.
        replace ((i - start) * nr + j - nr)%nat
          with ((i - Datatypes.S start) * nr + j)%nat by nia.
        exact En.
Qed.

Lemma draw_columns_no_rows (h : Host) (s : t) (c : Canvas.t) (n : nat) :
  forall start : nat, draw_columns h s c (Some O) start n = Done [].
Proof.
  induction n as [| n IH]; intros start; [reflexivity |].
  cbn [draw_columns]. rewrite IH. unfold draw_column.
  destruct (arr_get (colors s) start); reflexivity.
Qed.

(** X8.  When a canvas and a context exist, the loop bounds are finite and
    the colour table has a column for every column of the grid, [draw] fills
    exactly [cols * rows] rectangles, column after column: the rectangle
    number [i * rows + j] is the tile of cell [(i, j)], in the colour of
    [colors[i]]. *)
Theorem draw_fills_grid (h : Host) (s : t) (c : Canvas.t) (nc nr : nat) :
  canvas s = Some c -> ctx s = true ->
  loop_count (cols s) = Some nc -> loop_count (rows s) = Some nr ->
  (forall i : nat, (i < nc)%nat -> arr_get (colors s) i <> None) ->
  exists rects : list Rect,
    draw h s = Done rects
    /\ length rects = (nc * nr)%nat
    /\ forall i j : nat, (i < nc)%nat -> (j < nr)%nat ->
         exists col : array string,
           arr_get (colors s) i = Some col
           /\ nth_error rects (i * nr + j) = Some (tile h s c col i j).
Proof.
  intros Ec Ex Hc Hr Hcols.
  destruct (draw_columns_exact h s c nr nc 0) as [rects [E [Hlen Hn]]].
  { intros i Hi. apply Hcols. lia. }
  exists rects. unfold draw. rewrite Ec, Ex, Hc, Hr.
  split; [exact E | split; [exact Hlen |]].
  intros i j Hi Hj. destruct (Hn i j) as [col [Ei En]]; [lia | exact Hj |].
  exists col. rewrite Nat.sub_0_r in En. auto.
Qed.

Lemma single_tile_colored_canvas :
  canvas single_tile_colored = Some canvas_100x100.
Proof.
  exact (window_100x100_canvas
           (with_density (fields page_canvas true) (Fin 1)) page_canvas
           eq_refl).
Qed.

Lemma single_tile_colored_counts :
  loop_count (cols single_tile_colored) = Some 1%nat
  /\ loop_count (rows single_tile_colored) = Some 1%nat.
Proof.
  set (s1 := with_density (fields page_canvas true) (Fin 1)).
  destruct (window_100x100_grid s1 page_canvas 1 eq_refl eq_refl)
    as [_ [Hr Hc]]; [lia |].
  change (cols single_tile_colored)
    with (cols (canvasResize window_100x100 s1)).
  change (rows single_tile_colored)
    with (rows (canvasResize window_100x100 s1)).
  rewrite Hr, Hc. split; apply (loop_count_IZR 1).
Qed.

Lemma draw_fills_grid_witness :
  exists rects : list Rect,
    draw window_100x100 single_tile_colored = Done rects
    /\ length rects = (1 * 1)%nat
    /\ forall i j : nat, (i < 1)%nat -> (j < 1)%nat ->
         exists col : array string,
           arr_get (colors single_tile_colored) i = Some col
           /\ nth_error rects (i * 1 + j)
              = Some (tile window_100x100 single_tile_colored canvas_100x100
                        col i j).
Proof.
  apply (draw_fills_grid window_100x100 single_tile_colored canvas_100x100
           1 1).
  - exact single_tile_colored_canvas.
  - reflexivity.
  - exact (proj1 single_tile_colored_counts).
  - exact (proj2 single_tile_colored_counts).
  - intros i Hi. assert (i = 0%nat) as -> by lia. discriminate.
Defined.

(** X9.  When the grid has a column that the colour table lacks, [draw]
    throws a [TypeError] (it reads [this.colors[i][j]] on an undefined
    [this.colors[i]]), unless the grid has no row, in which case it returns
    having filled nothing. *)
Theorem draw_missing_column
    (h : Host) (s : t) (c : Canvas.t) (nc nr i : nat) :
  canvas s = Some c -> ctx s = true ->
  loop_count (cols s) = Some nc -> loop_count (rows s) = Some nr ->
  (i < nc)%nat -> arr_get (colors s) i = None ->
  draw h s = match nr with
             | O => Done []
             | Datatypes.S _ => Throws TypeError
             end.
Proof.
  intros Ec Ex Hc Hr Hi Ei. destruct nr as [| nr].
  - unfold draw. rewrite Ec, Ex, Hc, Hr. apply draw_columns_no_rows.
  - now apply (draw_throws h s c nc nr i).
Qed.

Lemma draw_missing_column_witness :
  draw window_800x600 swirl_800x600
  = match 32%nat with
    | O => Done []
    | Datatypes.S _ => Throws TypeError
    end.
Proof.
  apply (draw_missing_column window_800x600 swirl_800x600 canvas_800x600
           43 32 0).
  - exact swirl_800x600_canvas.
  - reflexivity.
  - exact (proj1 swirl_800x600_counts).
  - exact (proj2 swirl_800x600_counts).
  - lia.
  - reflexivity.
Defined.

Lemma draw_column_inv_col (h : Host) (s : t) (c : Canvas.t)
    (count : option nat) (i : nat) (rects : list Rect) :
  draw_column h s c count i = Done rects ->
  forall r : Rect, In r rects ->
    exists (col : array string) (j : nat),
      arr_get (colors s) i = Some col /\ r = tile h s c col i j.
Proof.
  unfold draw_column.
  destruct (arr_get (colors s) i) as [col |].
  - destruct count as [n |]; [| discriminate].
    intros [= <-] r Hr. apply in_map_iff in Hr.
    destruct Hr as [j [<- _]]. now exists col, j.
  - destruct count as [[| n] |]; try discriminate.
    intros [= <-] r [].
Qed.

Lemma draw_columns_inv_col (h : Host) (s : t) (c : Canvas.t)
    (count : option nat) (n : nat) :
  forall (start : nat) (rects : list Rect),
    draw_columns h s c count start n = Done rects ->
    forall r : Rect, In r rects ->
      exists (col : array string) (i j : nat),
        arr_get (colors s) i = Some col /\ r = tile h s c col i j.
Proof.
  induction n as [| n IH]; intros start rects.
  - intros [= <-] r [].
  - cbn [draw_columns].
    destruct (draw_column h s c count start) as [r1 | |] eqn:E1;
      cbn [bind]; try discriminate.
    destruct (draw_columns h s c count (Datatypes.S start) n)
      as [r2 | |] eqn:E2; cbn [bind]; try discriminate.
    intros [= <-] r Hr. apply in_app_or in Hr. destruct Hr as [Hr | Hr].
    + destruct (draw_column_inv_col h s c count start r1 E1 r Hr)
        as [col [j [Ecol ->]]].
      now exists col, start, j.
    + exact (IH _ _ E2 r Hr).
Qed.

Lemma draw_inv_col (h : Host) (s : t) (rects : list Rect) :
  draw h s = Done rects ->
  forall r : Rect, In r rects ->
    exists (c : Canvas.t) (col : array string) (i j : nat),
      arr_get (colors s) i = Some col /\ r = tile h s c col i j.
Proof.
  unfold draw. destruct (canvas s) as [c |]; [| intros [= <-] r []].
  destruct (ctx s); [| intros [= <-] r []].
  destruct (loop_count (cols s)) as [n |].
  - intros E r Hr.
    destruct (draw_columns_inv_col h s c _ n 0 rects E r Hr)
      as [col [i [j [Ecol ->]]]].
    now exists c, col, i, j.
  - destruct (draw_columns h s c (loop_count (rows s)) 0
                (Datatypes.S (length (colors s)))); discriminate.
Qed.

Lemma blankColor_not_empty (s : t) : blankColor s <> EmptyString.
Proof. unfold blankColor. destruct (isDark s); discriminate. Qed.

Lemma tileColor_cases (s : t) (col : array string) (j : nat) :
  tileColor s col j <> EmptyString
  /\ (tileColor s col j = blankColor s
      \/ arr_get col j = Some (tileColor s col j)).
Proof.
  generalize (blankColor_not_empty s). intros Hb. unfold tileColor.
  destruct (arr_get col j) as [[| a color] |]; split; auto.
  discriminate.
Qed.

Lemma fill_styles (h : Host) (s : t) (rects : list Rect) (r : Rect) :
  draw h s = Done rects -> In r rects ->
  fillStyle r <> EmptyString
  /\ (fillStyle r = blankColor s
      \/ exists i j : nat, color_at (colors s) i j = Some (fillStyle r)).
Proof.
  intros E Hr.
  destruct (draw_inv_col h s rects E r Hr) as [c [col [i [j [Ecol ->]]]]].
  cbn [tile fillStyle].
  destruct (tileColor_cases s col j) as [Hne [Hb | Hc]].
  - auto.
  - split; [exact Hne | right]. exists i, j. unfold color_at.
    now rewrite Ecol.
Qed.

(** X10.  No rectangle is filled with an empty fill style: the style of
    every rectangle [draw] fills is either the non-empty colour stored for
    its cell in the colour table or, where that entry is undefined or the
    empty string, the blank colour of the theme. *)
Theorem draw_fill_styles (h : Host) (s : t) (rects : list Rect) (r : Rect) :
  draw h s = Done rects -> In r rects ->
  fillStyle r <> EmptyString
  /\ (fillStyle r = blankColor s
      \/ exists i j : nat, color_at (colors s) i j = Some (fillStyle r)).
Proof. exact (fill_styles h s rects r). Qed.

Lemma single_tile_colored_draw :
  draw window_100x100 single_tile_colored
  = Done [tile window_100x100 single_tile_colored canvas_100x100
            [Some "hsl(43, 90%, 50%)"%string] 0 0].
Proof.
  unfold draw. rewrite single_tile_colored_canvas.
  change (ctx single_tile_colored) with true. cbv iota.
  rewrite (proj1 single_tile_colored_counts),
    (proj2 single_tile_colored_counts).
  reflexivity.
Qed.

Lemma draw_fill_styles_witness :
  let r := tile window_100x100 single_tile_colored canvas_100x100
             [Some "hsl(43, 90%, 50%)"%string] 0 0 in
  fillStyle r <> EmptyString
  /\ (fillStyle r = blankColor single_tile_colored
      \/ exists i j : nat,
           color_at (colors single_tile_colored) i j = Some (fillStyle r)).
Proof.
  intros r.
  apply (draw_fill_styles window_100x100 single_tile_colored [r] r).
  - exact single_tile_colored_draw.
  - left. reflexivity.
Defined.

(** The constructor again, with the call of [draw] its first frame made. *)
Lemma constructor_first_draw (h : Host) (k : nat) (s : t) (nc nr : nat) :
  loop_count (cols (canvasResize h s)) = Some nc ->
  loop_count (rows (canvasResize h s)) = Some nr ->
  exists (s' : t) (rects : list Rect),
    constructor h k s = Done (s', (k + nc * nr)%nat, rects)
    /\ colors s' = table_values h (palette s) k nc nr
    /\ isDark s' = themeMatches h
    /\ (rects = [] \/ draw h s' = Done rects)
    /\ (ctx s = false -> rects = [] /\ time s' = time s).
Proof.
  intros Hc Hr. unfold constructor.
  set (s1 := canvasResize h s) in *.
  set (s2 := checkDarkTheme h s1).
  rewrite (colorsInit_returns h s2 k nc nr Hc Hr). cbn [bind fst snd].
  set (s3 := set_colors s2 (table_values h (palette s2) k nc nr)).
  assert (Ep : palette s2 = palette s) by apply canvasResize_palette.
  assert (Ex : ctx s3 = ctx s) by apply canvasResize_ctx.
  assert (Et : time s3 = time s) by apply canvasResize_time.
  unfold animate. destruct (canvas s3) as [c |] eqn:Ecanvas.
  2: { exists s3, []. cbn [bind]. rewrite <- Ep. repeat split; auto. }
  destruct (ctx s3) eqn:Ectx.
  2: { exists s3, []. cbn [bind]. rewrite <- Ep. repeat split; auto. }
  set (s4 := set_time s3 (time s3 + speed s3)).
  destruct (draw_returns h s4 nc nr Hc Hr) as [rects [E _]].
  { intros i Hi. cbn [s4 s3 set_time set_colors colors].
    rewrite table_values_column by assumption. discriminate. }
  exists s4, rects. rewrite E. cbn [bind]. rewrite <- Ep.
  split; [reflexivity | split; [reflexivity | split; [reflexivity |]]].
  split; [now right |].
  intros Hf. rewrite Hf in Ex. discriminate.
Qed.

(** X11.  The first frame shows palette colours only: every rectangle the
    constructor's first frame fills has a non-empty fill style that is an
    entry of the palette or the blank colour of the theme the host reports
    (white for a dark theme, black otherwise).  With an empty palette every
    tile is blank. *)
Theorem first_frame_fill_styles (h : Host) (k : nat) (s : t) (nc nr : nat) :
  loop_count (cols (canvasResize h s)) = Some nc ->
  loop_count (rows (canvasResize h s)) = Some nr ->
  exists (s' : t) (rects : list Rect),
    constructor h k s = Done (s', (k + nc * nr)%nat, rects)
    /\ blankColor s'
       = (if themeMatches h
          then "hsl(0, 0%, 100%)"%string else "hsl(0, 0%, 0%)"%string)
    /\ forall r : Rect, In r rects ->
         fillStyle r <> EmptyString
         /\ (fillStyle r = blankColor s' \/ In (fillStyle r) (palette s))
         /\ (palette s = [] -> fillStyle r = blankColor s').
Proof.
  intros Hc Hr.
  destruct (constructor_first_draw h k s nc nr Hc Hr)
    as [s' [rects [E [Ecol [Edark [[-> | Edraw] _]]]]]].
  - exists s', []. split; [exact E | split].
    + unfold blankColor. now rewrite Edark.
    + intros r [].
  - exists s', rects. split; [exact E | split].
    + unfold blankColor. now rewrite Edark.
    + intros r Hin.
      destruct (fill_styles h s' rects r Edraw Hin) as [Hne Hcases].
      assert (Hor : fillStyle r = blankColor s'
                    \/ In (fillStyle r) (palette s)).
      { destruct Hcases as [Hb | [i [j Hc']]]; [now left | right].
        rewrite Ecol in Hc'. apply table_values_defined in Hc'.
        destruct Hc' as [_ [_ Hv]]. unfold cell_value, palette_at in Hv.
        destruct (index_of _) as [n |]; [| discriminate].
        now apply nth_error_In with n. }
      split; [exact Hne | split; [exact Hor |]].
      intros Hp. destruct Hor as [Hb | Hin']; [exact Hb |].
      rewrite Hp in Hin'. contradiction.
Qed.

Lemma first_frame_fill_styles_witness :
  exists (s' : t) (rects : list Rect),
    constructor window_800x600 0 (fields page_canvas true)
    = Done (s', (0 + 43 * 32)%nat, rects)
    /\ blankColor s'
       = (if themeMatches window_800x600
          then "hsl(0, 0%, 100%)"%string else "hsl(0, 0%, 0%)"%string)
    /\ forall r : Rect, In r rects ->
         fillStyle r <> EmptyString
         /\ (fillStyle r = blankColor s'
             \/ In (fillStyle r) (palette (fields page_canvas true)))
         /\ (palette (fields page_canvas true) = [] ->
             fillStyle r = blankColor s').
Proof.
  apply (first_frame_fill_styles window_800x600 0 (fields page_canvas true)
           43 32).
  - exact (proj1 swirl_800x600_counts).
  - exact (proj2 swirl_800x600_counts).
Defined.

(** ** The animation clock *)

(** X12.  The clock: when a canvas and a context exist, every frame adds
    [speed] to the time, whether or not its [draw] throws, and frames change
    nothing else: speed, geometry, colour table, canvas and context are after
    [n] frames what they were. *)
Theorem frames_clock (h : Host) (n : nat) (s : t) (c : Canvas.t) :
  canvas s = Some c -> ctx s = true ->
  time (frames h (Datatypes.S n) s) = (time (frames h n s) + speed s)%js
  /\ speed (frames h n s) = speed s
  /\ colors (frames h n s) = colors s
  /\ size (frames h n s) = size s
  /\ rows (frames h n s) = rows s
  /\ cols (frames h n s) = cols s
  /\ distanceMax (frames h n s) = distanceMax s
  /\ canvas (frames h n s) = Some c
  /\ ctx (frames h n s) = true.
Proof.
  intros Ec Ex.
  destruct (frames_keep h n s c Ec Ex)
    as [Fc [Fx [Fs [Fcol [Fz [Fr [Fcs Fd]]]]]]].
  split; [| repeat split; assumption].
  rewrite frames_snoc, (animate_state h _ c Fc Fx).
  cbn [set_time time]. now rewrite Fs.
Qed.

Lemma frames_clock_witness :
  time (frames window_800x600 (Datatypes.S 100) swirl_800x600)
  = (time (frames window_800x600 100 swirl_800x600)
     + speed swirl_800x600)%js
  /\ speed (frames window_800x600 100 swirl_800x600) = speed swirl_800x600
  /\ colors (frames window_800x600 100 swirl_800x600) = colors swirl_800x600
  /\ size (frames window_800x600 100 swirl_800x600) = size swirl_800x600
  /\ rows (frames window_800x600 100 swirl_800x600) = rows swirl_800x600
  /\ cols (frames window_800x600 100 swirl_800x600) = cols swirl_800x600
  /\ distanceMax (frames window_800x600 100 swirl_800x600)
     = distanceMax swirl_800x600
  /\ canvas (frames window_800x600 100 swirl_800x600) = Some canvas_800x600
  /\ ctx (frames window_800x600 100 swirl_800x600) = true.
Proof.
  apply (frames_clock window_800x600 100 swirl_800x600 canvas_800x600).
  - exact swirl_800x600_canvas.
  - reflexivity.
Defined.

Lemma frames_idle (h : Host) (n : nat) (s : t) :
  ctx s = false -> frames h n s = s.
Proof.
  intros Ex. induction n as [| n IH]; [reflexivity |].
  cbn [frames]. unfold animate. rewrite Ex.
  destruct (canvas s); exact IH.
Qed.

(** X13.  Without a drawing context ([getContext] returned null) the
    constructor still resizes the canvas, builds the whole colour table and
    consumes [cols * rows] random words, but it fills nothing and leaves the
    time alone; and no later frame changes the object. *)
Theorem session_without_context (h : Host) (k : nat) (s : t) (nc nr : nat) :
  loop_count (cols (canvasResize h s)) = Some nc ->
  loop_count (rows (canvasResize h s)) = Some nr ->
  ctx s = false ->
  exists s' : t,
    constructor h k s = Done (s', (k + nc * nr)%nat, [])
    /\ colors s' = table_values h (palette s) k nc nr
    /\ time s' = time s
    /\ forall n : nat, frames h n s' = s'.
Proof.
  intros Hc Hr Ex.
  destruct (constructor_first_draw h k s nc nr Hc Hr)
    as [s' [rects [E [Ecol [_ [_ Hno]]]]]].
  destruct (Hno Ex) as [-> Et].
  destruct (constructor_returns h k s nc nr Hc Hr)
    as [s'' [rects' [E' [_ [K _]]]]].
  assert (s'' = s') as -> by congruence.
  exists s'. repeat split; trivial.
  intros n. apply frames_idle.
  rewrite (kept_ctx _ _ K), canvasResize_ctx. exact Ex.
Qed.

Lemma session_without_context_witness :
  exists s' : t,
    constructor window_800x600 0 (fields page_canvas false)
    = Done (s', (0 + 43 * 32)%nat, [])
    /\ colors s'
       = table_values window_800x600 (palette (fields page_canvas false))
           0 43 32
    /\ time s' = time (fields page_canvas false)
    /\ forall n : nat, frames window_800x600 n s' = s'.
Proof.
  assert (Hg : cols (canvasResize window_800x600 (fields page_canvas false))
               = cols swirl_800x600
               /\ rows (canvasResize window_800x600
                          (fields page_canvas false))
                  = rows swirl_800x600) by (split; reflexivity).
  apply (session_without_context window_800x600 0
           (fields page_canvas false) 43 32).
  - rewrite (proj1 Hg). exact (proj1 swirl_800x600_counts).
  - rewrite (proj2 Hg). exact (proj2 swirl_800x600_counts).
  - reflexivity.
Defined.

(** ** Resize events compose *)

Lemma canvasResize_absorbs (h1 h2 : Host) (s : t) :
  canvasResize h2 (canvasResize h1 s) = canvasResize h2 s.
Proof. unfold canvasResize. destruct (canvas s) as [c |] eqn:E.
  - reflexivity.
  - now rewrite E.
Qed.

Lemma canvasResize_after_resizes (h : Host) (hs : list Host) :
  forall s : t, canvasResize h (resizes hs s) = canvasResize h s.
Proof.
  unfold resizes. induction hs as [| h1 hs IH]; intros s; [reflexivity |].
  cbn [fold_left]. rewrite IH. apply canvasResize_absorbs.
Qed.

(** X14.  Only the last resize counts: after any sequence of resize events
    the object is what the last event alone would have made of it.  In
    particular a resize event repeated on an unchanged window changes
    nothing. *)
Theorem resizes_last_wins (hs : list Host) (h : Host) (s : t) :
  resizes (hs ++ [h]) s = canvasResize h s
  /\ canvasResize h (canvasResize h s) = canvasResize h s.
Proof.
  split; [| apply canvasResize_absorbs].
  unfold resizes. rewrite fold_left_app. cbn [fold_left].
  exact (canvasResize_after_resizes h hs s).
Qed.

(** ** Windows without height or without width *)

Section EmptyCanvas.

Variable h : Host.
Variable s : t.
Variable c : Canvas.t.

Hypothesis Hcanvas : canvas (canvasResize h s) = Some c.
Hypothesis Hwidth : (0 <= Canvas.width c)%Z.
Hypothesis Hheight : (0 <= Canvas.height c)%Z.
Hypothesis Hempty : Canvas.width c = 0%Z \/ Canvas.height c = 0%Z.
Hypothesis Hratio : finite (devicePixelRatio h).
Hypothesis Hratio_pos : 0 < real (devicePixelRatio h).
Hypothesis Hdensity : finite (density s).
Hypothesis Hdensity_pos : 0 < real (density s).

(** [v / 0 / ratio], rounded up, for a canvas dimension [v]. *)
Lemma over_zero (v : Z) :
  (0 <= v)%Z ->
  ceil ((Fin (IZR v) / Fin 0) / Fin (real (devicePixelRatio h)))%js
  = if (0 <? v)%Z then PInf else NaN.
Proof.
  intros Hv. destruct (Z.ltb_spec 0 v) as [Hpos | Hzero].
  - rewrite div_zero_pos by now apply IZR_lt.
    unfold div. now rewrite (Rsign_Gt _ Hratio_pos).
  - assert (v = 0%Z) as -> by lia.
    unfold div at 2. now rewrite (Rsign_Eq 0).
Qed.

(** The tile edge is 0; rows and columns are [+Infinity] along a side that
    has an extent and NaN along a side that has none. *)
Lemma empty_canvas_geometry :
  size (canvasResize h s) = Fin 0
  /\ rows (canvasResize h s)
     = (if (0 <? Canvas.height c)%Z then PInf else NaN)
  /\ cols (canvasResize h s)
     = (if (0 <? Canvas.width c)%Z then PInf else NaN).
Proof.
  destruct (canvasResize_canvas_inv h s c Hcanvas) as [c0 [E0 Ec]].
  unfold canvasResize. rewrite E0. cbn [size rows cols].
  fold (resized_canvas h c0). rewrite <- Ec.
  unfold Canvas.width_num, Canvas.height_num. cbn [min].
  rewrite (finite_real _ Hdensity), (finite_real _ Hratio).
  rewrite (div_Fin _ (real (density s))) by lra.
  rewrite (div_Fin _ (real (devicePixelRatio h))) by lra.
  assert (Hmin : Rmin (IZR (Canvas.width c)) (IZR (Canvas.height c)) = 0).
  { apply IZR_le in Hwidth. apply IZR_le in Hheight.
    unfold Rmin. destruct (Rle_dec _ _); destruct Hempty as [E | E];
      rewrite E in *; lra. }
  rewrite Hmin.
  replace (0 / real (density s) / real (devicePixelRatio h)) with 0
    by (unfold Rdiv; ring).
  rewrite !over_zero by assumption. auto.
Qed.

End EmptyCanvas.

(** X17.  On a window without height (and with some width) the grid gets a
    tile edge of 0, NaN rows and [+Infinity] columns, and the constructor
    never returns: the outer loop of [colorsInit] has no end. *)
Theorem zero_height_never_returns
    (h : Host) (k : nat) (s : t) (c : Canvas.t) :
  canvas (canvasResize h s) = Some c ->
  (0 < Canvas.width c)%Z -> Canvas.height c = 0%Z ->
  finite (devicePixelRatio h) -> 0 < real (devicePixelRatio h) ->
  finite (density s) -> 0 < real (density s) ->
  size (canvasResize h s) = Fin 0
  /\ rows (canvasResize h s) = NaN
  /\ cols (canvasResize h s) = PInf
  /\ constructor h k s = Diverges.
Proof.
  intros Hc Hw Hh Hr Hrp Hd Hdp.
  destruct (empty_canvas_geometry h s c Hc) as [Es [Er Ec]];
    trivial; try lia; auto.
  rewrite Hh in Er. cbn in Er.
  destruct (Z.ltb_spec 0 (Canvas.width c)) as [_ | Hn]; [| lia].
  repeat split; trivial.
  unfold constructor, colorsInit.
  change (cols (checkDarkTheme h (canvasResize h s)))
    with (cols (canvasResize h s)).
  rewrite Ec. reflexivity.
Qed.

Lemma window_800x0_canvas (s : t) (c0 : Canvas.t) :
  canvas s = Some c0 ->
  canvas (canvasResize window_800x0 s) = Some canvas_800x0.
Proof.
  intros E. rewrite (canvasResize_canvas _ _ c0 E).
  unfold resized_canvas, Canvas.set_height, Canvas.set_width, canvas_800x0.
  cbn [Canvas.width Canvas.height window_800x0 innerWidth innerHeight
       devicePixelRatio mul].
  rewrite (reflect_ulong_IZR 300 800) by (lra || lia).
  rewrite (reflect_ulong_IZR 150 0) by (lra || lia).
  reflexivity.
Qed.

Lemma window_0x600_canvas (s : t) (c0 : Canvas.t) :
  canvas s = Some c0 ->
  canvas (canvasResize window_0x600 s) = Some canvas_0x600.
Proof.
  intros E. rewrite (canvasResize_canvas _ _ c0 E).
  unfold resized_canvas, Canvas.set_height, Canvas.set_width, canvas_0x600.
  cbn [Canvas.width Canvas.height window_0x600 innerWidth innerHeight
       devicePixelRatio mul].
  rewrite (reflect_ulong_IZR 300 0) by (lra || lia).
  rewrite (reflect_ulong_IZR 150 600) by (lra || lia).
  reflexivity.
Qed.

Lemma zero_height_never_returns_witness :
  size (canvasResize window_800x0 (fields page_canvas true)) = Fin 0
  /\ rows (canvasResize window_800x0 (fields page_canvas true)) = NaN
  /\ cols (canvasResize window_800x0 (fields page_canvas true)) = PInf
  /\ constructor window_800x0 0 (fields page_canvas true) = Diverges.
Proof.
  apply (zero_height_never_returns window_800x0 0 (fields page_canvas true)
           canvas_800x0).
  - now apply (window_800x0_canvas _ page_canvas).
  - simpl. lia.
  - reflexivity.
  - exact I.
  - simpl. lra.
  - exact I.
  - simpl. lra.
Defined.

(** X18.  On a window without width the grid has no column (the column
    count is NaN), whatever its height: the constructor returns with an
    empty colour table, having consumed no random word and filled nothing,
    even though the row count is [+Infinity] when the window has a height. *)
Theorem zero_width_returns (h : Host) (k : nat) (s : t) (c : Canvas.t) :
  canvas (canvasResize h s) = Some c ->
  Canvas.width c = 0%Z -> (0 <= Canvas.height c)%Z ->
  finite (devicePixelRatio h) -> 0 < real (devicePixelRatio h) ->
  finite (density s) -> 0 < real (density s) ->
  cols (canvasResize h s) = NaN
  /\ rows (canvasResize h s)
     = (if (0 <? Canvas.height c)%Z then PInf else NaN)
  /\ exists s' : t,
       constructor h k s = Done (s', k, []) /\ colors s' = [].
Proof.
  intros Hc Hw Hh Hr Hrp Hd Hdp.
  destruct (empty_canvas_geometry h s c Hc) as [Es [Er Ec]];
    trivial; try lia; auto.
  rewrite Hw in Ec. cbn in Ec.
  split; [exact Ec | split; [exact Er |]].
  unfold constructor.
  set (s2 := checkDarkTheme h (canvasResize h s)).
  assert (Hcols : loop_count (cols s2) = Some O)
    by (change (cols s2) with (cols (canvasResize h s)); now rewrite Ec).
  rewrite (colorsInit_no_columns h s2 k Hcols). cbn [bind fst snd].
  set (s3 := set_colors s2 []).
  unfold animate. destruct (canvas s3) as [c' |] eqn:Ec'.
  2: { exists s3. split; reflexivity. }
  destruct (ctx s3) eqn:Ex.
  2: { exists s3. split; reflexivity. }
  exists (set_time s3 (time s3 + speed s3)).
  unfold draw. cbn [set_time canvas ctx cols]. rewrite Ec', Ex.
  change (cols s3) with (cols s2). rewrite Hcols.
  split; reflexivity.
Qed.

Lemma zero_width_returns_witness :
  cols (canvasResize window_0x600 (fields page_canvas true)) = NaN
  /\ rows (canvasResize window_0x600 (fields page_canvas true))
     = (if (0 <? Canvas.height canvas_0x600)%Z then PInf else NaN)
  /\ exists s' : t,
       constructor window_0x600 0 (fields page_canvas true)
       = Done (s', 0%nat, [])
       /\ colors s' = [].
Proof.
  apply (zero_width_returns window_0x600 0 (fields page_canvas true)
           canvas_0x600).
  - now apply (window_0x600_canvas _ page_canvas).
  - reflexivity.
  - simpl. lia.
  - exact I.
  - simpl. lra.
  - exact I.
  - simpl. lra.
Defined.

(** ** Which colours [colorsInit] can choose *)

(** The least 32-bit word whose quotient by 2^32, scaled by [len], reaches
    [n]. *)
Lemma word_for_index (n len : Z) :
  (0 <= n < len)%Z -> (len <= 2 ^ 32)%Z ->
  exists raw : Z,
    (0 <= raw < 2 ^ 32)%Z
    /\ (n * 2 ^ 32 <= raw * len < (n + 1) * 2 ^ 32)%Z.
Proof.
  intros Hn Hlen.
  exists ((n * 2 ^ 32 + len - 1) / len)%Z.
  assert (Hpos : (0 < len)%Z) by lia.
  generalize (Z.mul_div_le (n * 2 ^ 32 + len - 1) len Hpos).
  generalize (Z.mul_succ_div_gt (n * 2 ^ 32 + len - 1) len Hpos).
  set (raw := ((n * 2 ^ 32 + len - 1) / len)%Z).
  intros Hgt Hle.
  assert (H0 : (0 <= raw)%Z) by (apply Z.div_pos; lia).
  assert (H1 : (raw < 2 ^ 32)%Z).
  { apply Z.div_lt_upper_bound; [exact Hpos |]. nia. }
  split; [lia |]. split; lia.
Qed.

(** X21.  Every palette entry can be chosen: for a palette of at most 2^32
    entries and each of its positions there is a 32-bit random word for
    which [colorsInit] computes that position and stores that entry. *)
Theorem every_palette_entry_reachable (p : list string) (n : nat) :
  (n < length p)%nat ->
  (Z.of_nat (length p) <= 2 ^ 32)%Z ->
  exists raw : Z,
    (0 <= raw < 2 ^ 32)%Z
    /\ palette_index p raw = of_nat n
    /\ palette_at p (palette_index p raw) = nth_error p n.
Proof.
  intros Hn Hlen.
  destruct (word_for_index (Z.of_nat n) (Z.of_nat (length p)))
    as [raw [Hraw [Hlo Hhi]]]; [lia | exact Hlen |].
  exists raw. split; [exact Hraw |].
  assert (E : palette_index p raw = of_nat n).
  { apply palette_index_eval.
    rewrite Z.mod_small by exact Hraw.
    rewrite two_pow_32, !INR_IZR_INZ.
    assert (Hp : 0 < IZR (2 ^ 32)) by (apply IZR_lt; lia).
    apply IZR_le in Hlo. apply IZR_lt in Hhi.
    rewrite !mult_IZR in Hlo, Hhi. rewrite plus_IZR in Hhi.
    replace (IZR raw / IZR (2 ^ 32) * IZR (Z.of_nat (length p)))
      with (IZR raw * IZR (Z.of_nat (length p)) / IZR (2 ^ 32))
      by (field; lra).
    split.
    - apply Rmult_le_reg_r with (IZR (2 ^ 32)); [exact Hp |].
      unfold Rdiv. rewrite Rmult_assoc, Rinv_l by lra. lra.
    - apply Rmult_lt_reg_r with (IZR (2 ^ 32)); [exact Hp |].
      unfold Rdiv. rewrite Rmult_assoc, Rinv_l by lra. lra. }
  split; [exact E |].
  unfold palette_at. now rewrite E, index_of_nat.
Qed.

Lemma every_palette_entry_reachable_witness :
  exists raw : Z,
    (0 <= raw < 2 ^ 32)%Z
    /\ palette_index (palette (fields page_canvas true)) raw = of_nat 3
    /\ palette_at (palette (fields page_canvas true))
         (palette_index (palette (fields page_canvas true)) raw)
       = nth_error (palette (fields page_canvas true)) 3.
Proof.
  apply (every_palette_entry_reachable (palette (fields page_canvas true)) 3).
  - simpl. lia.
  - simpl. lia.
Defined.

(** ** The order in which [colorsInit] consumes random words *)

(** X22.  [colorsInit] fills the table column after column: with [nc]
    columns and [nr] rows, entry [(i, j)] is the palette entry chosen by
    random word number [k + i * nr + j], the table has exactly [nc] columns
    and no entry outside the grid, and the table the object had before plays
    no part. *)
Theorem colorsInit_column_major (h : Host) (s : t) (k nc nr : nat) :
  loop_count (cols s) = Some nc -> loop_count (rows s) = Some nr ->
  exists s' : t,
    colorsInit h k s = Done (s', (k + nc * nr)%nat)
    /\ length (colors s') = nc
    /\ (forall i j : nat, (i < nc)%nat -> (j < nr)%nat ->
          color_at (colors s') i j
          = palette_at (palette s)
              (palette_index (palette s) (entropy h (k + i * nr + j))))
    /\ (forall i j : nat, (nc <= i)%nat \/ (nr <= j)%nat ->
          color_at (colors s') i j = None)
    /\ (forall cs : array (array string),
          colorsInit h k (set_colors s cs) = Done (s', (k + nc * nr)%nat)).
Proof.
  intros Hc Hr.
  exists (set_colors s (table_values h (palette s) k nc nr)).
  split; [now apply colorsInit_returns |]. cbn [colors set_colors].
  split; [unfold table_values; now rewrite length_map, length_seq |].
  split; [intros i j Hi Hj; now apply table_values_entry |].
  split.
  - intros i j Hij.
    destruct (color_at (table_values h (palette s) k nc nr) i j)
      as [v |] eqn:E; [| reflexivity].
    apply table_values_defined in E. lia.
  - intros cs.
    exact (colorsInit_returns h (set_colors s cs) k nc nr Hc Hr).
Qed.

Lemma colorsInit_column_major_witness :
  exists s' : t,
    colorsInit window_100x100 0 single_tile = Done (s', (0 + 1 * 1)%nat)
    /\ length (colors s') = 1%nat
    /\ (forall i j : nat, (i < 1)%nat -> (j < 1)%nat ->
          color_at (colors s') i j
          = palette_at (palette single_tile)
              (palette_index (palette single_tile)
                 (entropy window_100x100 (0 + i * 1 + j))))
    /\ (forall i j : nat, (1 <= i)%nat \/ (1 <= j)%nat ->
          color_at (colors s') i j = None)
    /\ (forall cs : array (array string),
          colorsInit window_100x100 0 (set_colors single_tile cs)
          = Done (s', (0 + 1 * 1)%nat)).
Proof.
  apply (colorsInit_column_major window_100x100 single_tile 0 1 1).
  - exact (proj1 single_tile_colored_counts).
  - exact (proj2 single_tile_colored_counts).
Defined.

(** ** A change of theme between two frames *)

Section ThemeChange.

Variable h h' : Host.
Variable s : t.
Variable c : Canvas.t.

Lemma tile_rethemed (col : array string) (i j : nat) :
  rethemed s (checkDarkTheme h' s)
    (tile h s c col i j) (tile h (checkDarkTheme h' s) c col i j).
Proof.
  repeat (split; [reflexivity |]).
  cbn [tile fillStyle]. unfold tileColor.
  destruct (arr_get col j) as [[| a color] |]; auto.
Qed.

Lemma tiles_rethemed (col : array string) (i : nat) (js : list nat) :
  Forall2 (rethemed s (checkDarkTheme h' s))
    (map (tile h s c col i) js)
    (map (tile h (checkDarkTheme h' s) c col i) js).
Proof.
  induction js as [| j js IH]; constructor.
  - apply tile_rethemed.
  - exact IH.
Qed.

Lemma draw_column_rethemed (count : option nat) (i : nat) :
  outcome_rel (Forall2 (rethemed s (checkDarkTheme h' s)))
    (draw_column h s c count i)
    (draw_column h (checkDarkTheme h' s) c count i).
Proof.
  unfold draw_column. cbn [colors checkDarkTheme].
  destruct (arr_get (colors s) i) as [col |]; destruct count as [[| n] |];
    cbn [outcome_rel]; trivial; try apply tiles_rethemed.
Qed.

Lemma draw_columns_rethemed (count : option nat) (n : nat) :
  forall start : nat,
    outcome_rel (Forall2 (rethemed s (checkDarkTheme h' s)))
      (draw_columns h s c count start n)
      (draw_columns h (checkDarkTheme h' s) c count start n).
Proof.
  induction n as [| n IH]; intros start; cbn [draw_columns].
  - constructor.
  - generalize (draw_column_rethemed count start) (IH (Datatypes.S start)).
    destruct (draw_column h s c count start) as [r | e |];
      destruct (draw_column h (checkDarkTheme h' s) c count start)
        as [r' | e' |];
      cbn [outcome_rel bind]; try contradiction; trivial.
    intros Hr.
    destruct (draw_columns h s c count (Datatypes.S start) n) as [rs | e |];
      destruct (draw_columns h (checkDarkTheme h' s) c count
                  (Datatypes.S start) n) as [rs' | e' |];
      cbn [outcome_rel bind]; try contradiction; trivial.
    intros Hrs. now apply Forall2_app.
Qed.

End ThemeChange.

(** X23.  A change of theme between two frames changes no geometry: [draw]
    ends the same way (returns, throws or runs for ever) as without the
    change, and when it returns it fills as many rectangles, each at the
    same place and of the same size, with the same fill style except that
    the tiles filled with the blank colour now get the blank colour of the
    new theme. *)
Theorem theme_change_keeps_geometry (h h' : Host) (s : t) :
  outcome_rel (Forall2 (rethemed s (checkDarkTheme h' s)))
    (draw h s) (draw h (checkDarkTheme h' s)).
Proof.
  unfold draw. cbn [canvas ctx cols rows colors checkDarkTheme].
  destruct (canvas s) as [c |]; [| constructor].
  destruct (ctx s); [| constructor].
  destruct (loop_count (cols s)) as [n |].
  - apply draw_columns_rethemed.
  - generalize (draw_columns_rethemed h h' s c (loop_count (rows s))
                  (Datatypes.S (length (colors s))) 0).
    destruct (draw_columns h s c (loop_count (rows s)) 0
                (Datatypes.S (length (colors s)))) as [rs | e |];
      destruct (draw_columns h (checkDarkTheme h' s) c (loop_count (rows s)) 0
                  (Datatypes.S (length (colors s)))) as [rs' | e' |];
      cbn [outcome_rel bind]; try contradiction; trivial.
Qed.

(** * The arithmetic in binary64: what rounding decides *)

Section DoubleFacts.

Import PrimFloat FloatOps SpecFloat FloatAxioms.
#[local] Set Warnings "-inexact-float".
Local Open Scope float_scope.

(** ** C5: the geometry [canvasResize] computes *)



(** The quotients are rounded before the ceiling is taken: with density 7 on
    the 800 x 600 window the tile edge is the double below [600 / 7], the
    quotient [600 / tileEdge] the double above 7, and the grid has 8 rows;
    with the default density on a 375 x 667 window at pixel ratio 1.75 it
    has 33 columns. *)
Lemma rounded_quotients_add_a_row :
  Double.size Double.swirl_800x600_density7 = 85.714285714285708
  /\ 600 / Double.size Double.swirl_800x600_density7 / 1 = 7.0000000000000009
  /\ Double.rows Double.swirl_800x600_density7 = 8
  /\ Double.cols Double.swirl_800x600_density7 = 10
  /\ (let s := Double.canvasResize
                 {| Double.innerWidth := 375; Double.innerHeight := 667;
                    Double.devicePixelRatio := 1.75 |}
                 (Double.fields Double.page 32) in
      Double.canvas s = Some {| Canvas.width := 656; Canvas.height := 1167 |}
      /\ Double.cols s = 33 /\ Double.rows s = 57).
Proof. vm_compute. repeat split; reflexivity. Qed.

(** On a square window the grid need not be [density] tiles wide: with
    density 58 on the 100 x 100 window the quotient [100 / tileEdge] is the
    double above 58 and the grid has 59 x 59 tiles. *)
Lemma square_window_grid_overshoots :
  let s := Double.canvasResize (Double.window 100 100)
             (Double.fields Double.page 58) in
  Double.size s = 1.7241379310344827
  /\ 100 / Double.size s / 1 = 58.000000000000007
  /\ Double.rows s = 59 /\ Double.cols s = 59.
Proof. vm_compute. repeat split; reflexivity. Qed.

(** ** C1: a saturated tile *)


(** ** C6: the tile at the centre of the field *)

(** [0 / d] is [+0] for a positive divisor, an infinite one included. *)
Lemma zero_div_pos (d : float) : (0 <? d) = true -> 0 / d = 0.
Proof.
  intros H. apply Prim2SF_inj. rewrite div_spec. rewrite ltb_spec in H.
  change (Prim2SF 0) with (S754_zero false) in *.
  destruct (Prim2SF d) as [sd | sd | | sd m e]; cbn in *;
    try discriminate; destruct sd; try discriminate; reflexivity.
Qed.




(** ** C7: a tile that stands still *)


End DoubleFacts.
